(** * The autologging safety layer (mlflow/utils/autologging_utils/safety.py)

    A shallow embedding of the patch-safety engine: the exception-safe
    wrappers, [PatchFunction], [with_managed_run], the session manager,
    [safe_patch_function], the patch registry and the argument-forwarding
    validator, followed by the properties the specification states about
    them. *)

From Stdlib Require Import ZArith Bool Lia.
From stdpp Require Import base option list strings gmap.

Open Scope string_scope.
Set Warnings "-register-all".

(** ** Python values and exceptions *)

Module Py.

(** The exception classes the module raises or distinguishes.  Only
    [KeyboardInterrupt] and [SystemExit] are outside [Exception]. *)
Inductive exn_class :=
  | ExceptionCls
  | ValueError
  | RuntimeError
  | AssertionError
  | AttributeError
  | UnboundLocalError
  | MlflowException
  | KeyboardInterrupt
  | SystemExit.

Record exn := Exn { exn_cls : exn_class; exn_msg : string }.

Definition isinstance_Exception (e : exn) : bool :=
  match exn_cls e with
  | KeyboardInterrupt | SystemExit => false
  | _ => true
  end.

Definition isinstance_KeyboardInterrupt (e : exn) : bool :=
  match exn_cls e with
  | KeyboardInterrupt => true
  | _ => false
  end.

(** [except (Exception, KeyboardInterrupt)] *)
Definition isinstance_Exception_or_KeyboardInterrupt (e : exn) : bool :=
  isinstance_Exception e || isinstance_KeyboardInterrupt e.

(** The metaclass of an object's class, as far as the validator looks at it. *)
Inductive metaclass :=
  | MetaType
  | MetaABC
  | ExceptionSafeClass
  | ExceptionSafeAbstractClass.

Record pyclass := PyClass { cls_name : string; cls_meta : metaclass }.

(** Values.  A callable carries its address and its [exception_safe]
    attribute; an instance of a user class carries its address and its class.
    Dictionaries are kept as their items in insertion order, with string
    keys (keyword arguments). *)
Inductive pyval :=
  | VNone
  | VBool (b : bool)
  | VInt (z : Z)
  | VStr (s : string)
  | VList (items : list pyval)
  | VTuple (items : list pyval)
  | VDict (items : list (string * pyval))
  | VCallable (addr : nat) (exception_safe : bool)
  | VObj (addr : nat) (cls : pyclass).

Inductive pytype :=
  | TNoneType | TBool | TInt | TStr | TList | TTuple | TDict | TFunction
  | TInstance (c : pyclass).

Definition type (v : pyval) : pytype :=
  match v with
  | VNone => TNoneType
  | VBool _ => TBool
  | VInt _ => TInt
  | VStr _ => TStr
  | VList _ => TList
  | VTuple _ => TTuple
  | VDict _ => TDict
  | VCallable _ _ => TFunction
  | VObj _ c => TInstance c
  end.

Definition metaclass_eqb (a b : metaclass) : bool :=
  match a, b with
  | MetaType, MetaType | MetaABC, MetaABC
  | ExceptionSafeClass, ExceptionSafeClass
  | ExceptionSafeAbstractClass, ExceptionSafeAbstractClass => true
  | _, _ => false
  end.

Definition pyclass_eqb (a b : pyclass) : bool :=
  String.eqb (cls_name a) (cls_name b) && metaclass_eqb (cls_meta a) (cls_meta b).

Definition pytype_eqb (a b : pytype) : bool :=
  match a, b with
  | TNoneType, TNoneType | TBool, TBool | TInt, TInt | TStr, TStr
  | TList, TList | TTuple, TTuple | TDict, TDict | TFunction, TFunction => true
  | TInstance c, TInstance d => pyclass_eqb c d
  | _, _ => false
  end.

Definition is_None (v : pyval) : bool :=
  match v with VNone => true | _ => false end.

(** [a is u]: identity.  [None] is a singleton; callables and instances are
    the same object when they live at the same address.  For numbers and
    strings identity is an implementation matter and is not relied on. *)
Definition py_is (a u : pyval) : bool :=
  match a, u with
  | VNone, VNone => true
  | VCallable x _, VCallable y _ => Nat.eqb x y
  | VObj x _, VObj y _ => Nat.eqb x y
  | _, _ => false
  end.

(** [a == u] on the values that reach the last branch of [_validate]:
    by value on numbers and strings, the default [object.__eq__] (identity)
    on callables and instances. *)
Definition py_eq (a u : pyval) : bool :=
  match a, u with
  | VNone, VNone => true
  | VBool x, VBool y => Bool.eqb x y
  | VInt x, VInt y => Z.eqb x y
  | VStr x, VStr y => String.eqb x y
  | VCallable x _, VCallable y _ => Nat.eqb x y
  | VObj x _, VObj y _ => Nat.eqb x y
  | _, _ => false
  end.

(** Outcome of a call: a value, or a raised exception. *)
Inductive Res (A : Type) :=
  | Val (a : A)
  | Exc (e : exn).
Arguments Val {A} a.
Arguments Exc {A} e.

Definition kwargs := list (string * pyval).

(** [d.get(key, None)] *)
Fixpoint dict_get (d : kwargs) (key : string) : pyval :=
  match d with
  | [] => VNone
  | (k, v) :: d' => if String.eqb k key then v else dict_get d' key
  end.

Definition dict_keys (d : kwargs) : list string := map fst d.

Definition has_key (d : kwargs) (key : string) : bool :=
  existsb (String.eqb key) (dict_keys d).

(** [set(u.keys()).issubset(set(a.keys()))] *)
Definition keys_issubset (u a : kwargs) : bool :=
  forallb (has_key a) (dict_keys u).

(** Keys of a dictionary are unique, at every depth. *)
Fixpoint well_formed (v : pyval) : Prop :=
  match v with
  | VList items | VTuple items =>
      (fix all (l : list pyval) : Prop :=
         match l with [] => True | x :: l' => well_formed x /\ all l' end) items
  | VDict items =>
      NoDup (dict_keys items) /\
      (fix all (l : list (string * pyval)) : Prop :=
         match l with [] => True | (_, x) :: l' => well_formed x /\ all l' end) items
  | _ => True
  end.

End Py.
Export Py.

(** ** The argument-forwarding validator ([_validate_args]) *)

Module Validator.

Definition assertion_failure (msg : string) : Res unit :=
  Exc (Exn AssertionError msg).

(** [_validate_new_input]: an input the patch added to the call of the
    original function.  A list is checked element by element; a callable
    must carry the [exception_safe] attribute; anything else must be an
    instance of a class whose metaclass is [ExceptionSafeClass] or
    [ExceptionSafeAbstractClass]. *)
Fixpoint _validate_new_input (inp : pyval) : Res unit :=
  match inp with
  | VList items =>
      (fix each (l : list pyval) : Res unit :=
         match l with
         | [] => Val tt
         | item :: l' =>
             match _validate_new_input item with
             | Val _ => each l'
             | Exc e => Exc e
             end
         end) items
  | VCallable _ safe =>
      if safe then Val tt
      else assertion_failure
             "New function argument passed to original function is not exception-safe."
  | VObj _ c =>
      match cls_meta c with
      | ExceptionSafeClass | ExceptionSafeAbstractClass => Val tt
      | _ => assertion_failure "Invalid new input."
      end
  | _ => assertion_failure "Invalid new input."
  end.

(** [_validate(autologging_call_input, user_call_input=None)].  The loop
    over [itertools.zip_longest] pads the user's side with [None]; it runs
    after the length assertion, so the autologging side is never the shorter
    one. *)
Fixpoint _validate (autologging_call_input user_call_input : pyval) {struct autologging_call_input}
  : Res unit :=
  if is_None user_call_input && negb (is_None autologging_call_input) then
    _validate_new_input autologging_call_input
  else if negb (pytype_eqb (type autologging_call_input) (type user_call_input)) then
    assertion_failure "Type of input to original function does not match expected type"
  else
    let sequence (la lu : list pyval) : Res unit :=
      if (length la <? length lu)%nat then
        assertion_failure "expected inputs are missing from the call to the original function."
      else
        (fix zip_longest (la lu : list pyval) {struct la} : Res unit :=
           match la with
           | [] => Val tt
           | a :: la' =>
               match _validate a (hd VNone lu) with
               | Val _ => zip_longest la' (tl lu)
               | Exc e => Exc e
               end
           end) la lu in
    match autologging_call_input, user_call_input with
    | VList la, VList lu => sequence la lu
    | VTuple la, VTuple lu => sequence la lu
    | VDict da, VDict du =>
        if negb (keys_issubset du da) then
          assertion_failure
            "Keyword or dictionary arguments to original function omit one or more expected keys"
        else
          (fix each_key (l : list (string * pyval)) : Res unit :=
             match l with
             | [] => Val tt
             | (key, a) :: l' =>
                 match _validate a (dict_get du key) with
                 | Val _ => each_key l'
                 | Exc e => Exc e
                 end
             end) da
    | a, u =>
        if py_is a u || py_eq a u then Val tt
        else assertion_failure "Input to original function does not match expected input."
    end.

Definition _validate_args (user_call_args : list pyval) (user_call_kwargs : kwargs)
    (autologging_call_args : list pyval) (autologging_call_kwargs : kwargs) : Res unit :=
  match _validate (VTuple autologging_call_args) (VTuple user_call_args) with
  | Val _ => _validate (VDict autologging_call_kwargs) (VDict user_call_kwargs)
  | Exc e => Exc e
  end.

End Validator.
Export Validator.

(** ** Process state *)

Module State.

(** [AutologgingSession]: [state] is one of running / succeeded / failed. *)
Inductive SessionState := running | succeeded | failed.

Record AutologgingSession := mkSession {
  integration : string;
  id_ : nat;
  state : SessionState
}.

Inductive RunStatus := RUNNING | SCHEDULED | FINISHED | FAILED | KILLED.

Record Run := mkRun {
  run_id : nat;
  status : RunStatus;
  tags : list (string * string)
}.

(** What a guarded call reads and never writes: [os.environ], the
    per-integration configuration ([AUTOLOGGING_INTEGRATIONS]) and the global
    switch.  They are inputs of a call; user code changing them while the
    call runs is not modelled. *)
Record Env := mkEnv {
  environ : gmap string string;
  AUTOLOGGING_INTEGRATIONS : gmap string (gmap string bool);
  _AUTOLOGGING_GLOBALLY_DISABLED : bool
}.

(** [_AutologgingSessionManager]: the class attribute [_session] refers to a
    session object; the objects live in [sessions], addressed by position, so
    that [session.state = ...] through any alias updates the one object.
    [state_writes] is the history of those assignments, oldest first. *)
Record SessionManager := mkManager {
  _session : option nat;
  sessions : list AutologgingSession;
  state_writes : list (nat * SessionState)
}.

(** The tracking backend seen through the fluent API: every run ever
    created, addressed by run id, and the stack of active runs. *)
Record Tracking := mkTracking {
  runs : list Run;
  _active_run_stack : list nat
}.

Record ThreadWarnings := mkThreadWarnings {
  tw_disable_warnings : bool;
  tw_reroute_warnings : bool
}.

Record GlobalBehavior := mkGlobalBehavior {
  gb_reroute_warnings : bool;
  gb_disable_event_logs : bool;
  gb_disable_warnings : bool
}.

Record Diagnostics := mkDiagnostics {
  thread_warnings : ThreadWarnings;
  global_behavior : GlobalBehavior
}.

Inductive EventKind :=
  | original_function_start | original_function_success | original_function_error
  | patch_function_start | patch_function_success | patch_function_error.

Record Event := mkEvent {
  ev_kind : EventKind;
  ev_session : nat;
  ev_destination : string;
  ev_function_name : string;
  ev_args : list pyval;
  ev_kwargs : kwargs;
  ev_exception : option exn
}.

Inductive LogRecord :=
  | LogDebug (msg : string)
  | LogInfo (msg : string)
  | LogWarning (msg : string)
  | UserWarning (msg : string).

(** What the event logger, the module logger and [warnings.warn] received,
    and [journal]: whatever else user code (the original function, a patch)
    made observable. *)
Record Sinks := mkSinks {
  events : list Event;
  logs : list LogRecord;
  journal : list pyval
}.

Record World := mkWorld {
  manager : SessionManager;
  tracking : Tracking;
  diagnostics : Diagnostics;
  sinks : Sinks
}.

Definition with_manager (f : SessionManager -> SessionManager) (w : World) : World :=
  mkWorld (f (manager w)) (tracking w) (diagnostics w) (sinks w).
Definition with_tracking (f : Tracking -> Tracking) (w : World) : World :=
  mkWorld (manager w) (f (tracking w)) (diagnostics w) (sinks w).
Definition with_diagnostics (f : Diagnostics -> Diagnostics) (w : World) : World :=
  mkWorld (manager w) (tracking w) (f (diagnostics w)) (sinks w).
Definition with_sinks (f : Sinks -> Sinks) (w : World) : World :=
  mkWorld (manager w) (tracking w) (diagnostics w) (f (sinks w)).

(** One recorded invocation of the original function: the arguments it got
    and how it ended. *)
Definition OgCall : Type := list pyval * kwargs * Res pyval.

(** The call-local variables of one [safe_patch_function] invocation.
    [preexisting_run_for_testing] is [None] while unbound.  [og_calls] is a
    history variable: the invocations of the original function made by this
    guarded call, oldest first. *)
Record Frame := mkFrame {
  preexisting_run_for_testing : option (option nat);
  original_has_been_called : bool;
  original_result : pyval;
  failed_during_original : bool;
  patch_function_run_for_testing : option nat;
  og_calls : list OgCall
}.

Record Ctx := mkCtx {
  locals : Frame;
  world : World
}.

Definition with_locals (f : Frame -> Frame) (c : Ctx) : Ctx := mkCtx (f (locals c)) (world c).
Definition with_world (f : World -> World) (c : Ctx) : Ctx := mkCtx (locals c) (f (world c)).

Definition unbound_locals : Frame := mkFrame None false VNone false None [].

(** The state in which a caller's call of the installed function starts. *)
Definition enter (w : World) : Ctx := mkCtx unbound_locals w.

End State.
Export State.

(** ** Computations: state passing with exceptions *)

Module Monad.

Definition M (St A : Type) : Type := St -> Res A * St.

Definition ret {St A} (a : A) : M St A := fun s => (Val a, s).

Definition raise {St A} (e : exn) : M St A := fun s => (Exc e, s).

Definition bind {St A B} (m : M St A) (k : A -> M St B) : M St B :=
  fun s => match m s with
           | (Val a, s') => k a s'
           | (Exc e, s') => (Exc e, s')
           end.

(** [try: m  except <classes> as e: h e] *)
Definition try_except {St A} (m : M St A) (classes : exn -> bool) (h : exn -> M St A) : M St A :=
  fun s => match m s with
           | (Val a, s') => (Val a, s')
           | (Exc e, s') => if classes e then h e s' else (Exc e, s')
           end.

(** [try: m  except <classes> as e: h e  else: els], the [else] suite being
    outside the reach of the handler. *)
Definition try_except_else {St A B} (m : M St A) (classes : exn -> bool)
    (h : exn -> M St B) (els : A -> M St B) : M St B :=
  fun s => match m s with
           | (Val a, s') => els a s'
           | (Exc e, s') => if classes e then h e s' else (Exc e, s')
           end.

(** [try: m  finally: fin] *)
Definition try_finally {St A} (m : M St A) (fin : M St unit) : M St A :=
  fun s => match m s with
           | (r, s') =>
               match fin s' with
               | (Val _, s'') => (r, s'')
               | (Exc e, s'') => (Exc e, s'')
               end
           end.

Definition get {St} : M St St := fun s => (Val s, s).
Definition modify {St} (f : St -> St) : M St unit := fun s => (Val tt, f s).
Definition read {St A} (f : St -> A) : M St A := fun s => (Val (f s), s).

(** Run a computation on a part of the state. *)
Definition zoom {S T A} (prj : S -> T) (upd : T -> S -> S) (m : M T A) : M S A :=
  fun s => match m (prj s) with (r, t) => (r, upd t s) end.

(** [assert], with the outcome of the check already computed. *)
Definition assert_ {St} (b : bool) (msg : string) : M St unit :=
  if b then ret tt else raise (Exn AssertionError msg).

Definition of_res {St A} (r : Res A) : M St A := fun s => (r, s).

(** Truth value of an optional object: [None] is false, an object is true. *)
Definition truthy {A} (o : option A) : bool :=
  match o with Some _ => true | None => false end.

End Monad.
Export Monad.

Declare Scope py_scope.
Delimit Scope py_scope with py.
Notation "x <- m ;; k" := (bind m (fun x => k))
  (at level 100, m at next level, right associativity) : py_scope.
Notation "m ;; k" := (bind m (fun _ => k))
  (at level 100, right associativity) : py_scope.
Open Scope py_scope.

Definition in_world {A} (m : M World A) : M Ctx A :=
  zoom world (fun w c => mkCtx (locals c) w) m.

Definition set_local (f : Frame -> Frame) : M Ctx unit := modify (with_locals f).

Definition get_locals : M Ctx Frame := read locals.

(** ** External collaborators *)

Module Collaborators.

(** Modelled from the spec: the tracking client of the fluent API
    ([mlflow.active_run], [mlflow.start_run], [mlflow.end_run],
    [MlflowClient.get_run]), whose code is not part of the sources at hand.
    [activeRun() -> Run|None] is the top of the stack of active runs;
    [startRun(tags) -> Run] creates a run in status RUNNING and makes it the
    active one (it refuses to start a second run unless asked for a nested
    one); [endRun(status)] terminates the active run, if any, with the given
    status; [getRun(id)] fetches a run. *)
Definition active_run_in (w : World) : option nat := head (_active_run_stack (tracking w)).

Definition mlflow_active_run : M World (option nat) := read active_run_in.

Definition mlflow_start_run (nested : bool) (tags : list (string * string)) : M World nat :=
  fun w =>
    let t := tracking w in
    if truthy (active_run_in w) && negb nested then
      (Exc (Exn ExceptionCls "Run is already active"), w)
    else
      (Val (length (runs t)),
       with_tracking (fun _ => mkTracking (runs t ++ [mkRun (length (runs t)) RUNNING tags])
                                          (length (runs t) :: _active_run_stack t)) w).

Definition set_terminated (rid : nat) (s : RunStatus) (rs : list Run) : list Run :=
  alter (fun r => mkRun (run_id r) s (tags r)) rid rs.

Definition mlflow_end_run (s : RunStatus) : M World unit :=
  fun w =>
    let t := tracking w in
    match _active_run_stack t with
    | [] => (Val tt, w)
    | rid :: rest =>
        (Val tt, with_tracking (fun _ => mkTracking (set_terminated rid s (runs t)) rest) w)
    end.

Definition get_run (rid : nat) : M World Run :=
  fun w =>
    match runs (tracking w) !! rid with
    | Some r => (Val r, w)
    | None => (Exc (Exn MlflowException "Run not found"), w)
    end.

(** Modelled from the spec: [RunStatus.is_terminated], not part of the
    sources at hand: a status is terminal when the run is over. *)
Definition is_terminated (s : RunStatus) : bool :=
  match s with
  | FINISHED | FAILED | KILLED => true
  | RUNNING | SCHEDULED => false
  end.

(** Modelled from the spec: the tag key [MLFLOW_AUTOLOGGING] of
    [mlflow.utils.mlflow_tags], not part of the sources at hand. *)
Definition MLFLOW_AUTOLOGGING : string := "mlflow.autologging".

(** Modelled from the spec: the configuration store
    ([get_autologging_config], [autologging_is_disabled] and the global
    kill-switch of [mlflow.utils.autologging_utils]), not part of the sources
    at hand: a read-only key/value lookup per integration with a default,
    and an integration-level disabled flag. *)
Definition get_autologging_config (env : Env) (flavor_name config_key : string)
    (default_value : bool) : bool :=
  match AUTOLOGGING_INTEGRATIONS env !! flavor_name with
  | Some config => default default_value (config !! config_key)
  | None => default_value
  end.

Definition autologging_is_disabled (env : Env) (integration_name : string) : bool :=
  get_autologging_config env integration_name "disable" true.

(** Modelled from the spec: the diagnostics router
    ([set_mlflow_events_and_warnings_behavior_globally] and
    [set_non_mlflow_warnings_behavior_for_current_thread] of
    [logging_and_warnings]), not part of the sources at hand: scoped
    acquisition and release; the behaviour in force on entry is restored on
    every exit path. *)
Definition install_global (g : GlobalBehavior) (c : Ctx) : Ctx :=
  with_world (with_diagnostics (fun d => mkDiagnostics (thread_warnings d) g)) c.

Definition install_thread (t : ThreadWarnings) (c : Ctx) : Ctx :=
  with_world (with_diagnostics (fun d => mkDiagnostics t (global_behavior d))) c.

Definition set_mlflow_events_and_warnings_behavior_globally {A}
    (reroute_warnings disable_event_logs disable_warnings : bool) (body : M Ctx A) : M Ctx A :=
  fun c =>
    let prev := global_behavior (diagnostics (world c)) in
    match body (install_global
                  (mkGlobalBehavior reroute_warnings disable_event_logs disable_warnings) c) with
    | (r, c') => (r, install_global prev c')
    end.

Definition set_non_mlflow_warnings_behavior_for_current_thread {A}
    (disable_warnings reroute_warnings : bool) (body : M Ctx A) : M Ctx A :=
  fun c =>
    let prev := thread_warnings (diagnostics (world c)) in
    match body (install_thread (mkThreadWarnings disable_warnings reroute_warnings) c) with
    | (r, c') => (r, install_thread prev c')
    end.

(** Modelled from the spec: the event logger
    ([AutologgingEventLogger.get_logger()]), not part of the sources at
    hand: fire-and-forget notifications, each receiving the session, the
    destination, the function name, the arguments and, for the error events,
    the exception. *)
Definition log_event (kind : EventKind) (session : nat) (destination function_name : string)
    (args : list pyval) (kws : kwargs) (e : option exn) : M World unit :=
  modify (with_sinks (fun s =>
    mkSinks (events s ++ [mkEvent kind session destination function_name args kws e])
            (logs s) (journal s))).

(** The module logger [_logger] and [warnings.warn]. *)
Definition emit (r : LogRecord) : M World unit :=
  modify (with_sinks (fun s => mkSinks (events s) (logs s ++ [r]) (journal s))).

End Collaborators.
Export Collaborators.

(** ** safety.py *)

Module Safety.

Definition _AUTOLOGGING_TEST_MODE_ENV_VAR : string := "MLFLOW_AUTOLOGGING_TESTING".

(** [is_testing()]:
    [os.environ.get(_AUTOLOGGING_TEST_MODE_ENV_VAR, "false") == "true"] *)
Definition is_testing (env : Env) : bool :=
  String.eqb (default "false" (environ env !! _AUTOLOGGING_TEST_MODE_ENV_VAR)) "true".

(** [try_mlflow_log(fn, args, kwargs)]: the result of [fn], or [None]
    after a warning when [fn] raised an [Exception] outside test mode. *)
Definition try_mlflow_log {A} (env : Env) (fn : M World A) : M World (option A) :=
  try_except (a <- fn ;; ret (Some a)) isinstance_Exception
    (fun e =>
       if is_testing env then raise e
       else emit (UserWarning ("Logging to MLflow failed: " ++ exn_msg e)) ;; ret None).

(** The original function handed to a patch, and a patch implementation
    written as a function [patch_function(original, args, kwargs)]. *)
Definition Closure : Type := list pyval -> kwargs -> M Ctx pyval.
Definition PatchFn : Type := Closure -> list pyval -> kwargs -> M Ctx pyval.

(** [class PatchFunction]: the two abstract methods, over the state [Self]
    of a fresh instance. *)
Record PatchFunction (Self : Type) := mkPatchFunction {
  __init__ : Self;
  _patch_implementation : Closure -> list pyval -> kwargs -> M (Self * Ctx) pyval;
  _on_exception : exn -> M (Self * Ctx) unit
}.
Arguments mkPatchFunction {Self}.
Arguments __init__ {Self}.
Arguments _patch_implementation {Self}.
Arguments _on_exception {Self}.

(** [PatchFunction.__call__] *)
Definition __call__ {Self} (self : PatchFunction Self)
    (original : Closure) (args : list pyval) (kws : kwargs) : M (Self * Ctx) pyval :=
  try_except (_patch_implementation self original args kws)
    isinstance_Exception_or_KeyboardInterrupt
    (fun e =>
       try_finally (_on_exception self e ;; ret VNone)
         (* Regardless of what happens during the `_on_exception` callback, reraise *)
         (raise e)).

(** [PatchFunction.call]: [cls().__call__(original, args, kwargs)] *)
Definition call {Self} (cls : PatchFunction Self)
    (original : Closure) (args : list pyval) (kws : kwargs) : M Ctx pyval :=
  fun c =>
    match __call__ cls original args kws (__init__ cls, c) with
    | (r, s) => (r, snd s)
    end.

(** A patch is a function object or a [PatchFunction] class definition. *)
Inductive patch_impl : Type :=
  | PatchDef (patch_function : PatchFn)
  | PatchCls {Self : Type} (patch_function : PatchFunction Self).

Definition on_ctx {Self A} (m : M Ctx A) : M (Self * Ctx) A :=
  zoom snd (fun c s => (fst s, c)) m.

Definition on_world {Self A} (m : M World A) : M (Self * Ctx) A := on_ctx (in_world m).

(** A method of the superclass, run on the subclass instance. *)
Definition super {Self Extra A} (m : M (Self * Ctx) A) : M ((Extra * Self) * Ctx) A :=
  zoom (fun s => (snd (fst s), snd s)) (fun t s => ((fst (fst s), fst t), snd t)) m.

Section with_managed_run.

Variable env : Env.
Variable autologging_integration : string.
Variable tags : list (string * string).

(** The definitions [..._with] are those of the source with the call
    [mlflow.start_run(tags=tags)] of the tracking client as a parameter
    [start_run]: whatever the client does - it creates a run, or it fails.
    The definitions without the suffix are these over the modelled client,
    which creates a run whenever none is active. *)
Section over_client.

Variable start_run : list (string * string) -> M World nat.

Definition create_managed_run_with : M World nat :=
  managed_run <- start_run tags ;;
  emit (LogInfo ("Created MLflow autologging run, which will track the current "
                 ++ autologging_integration ++ " workflow")) ;;
  ret managed_run.

(** [class PatchWithManagedRun(patch_function)]; the instance attribute
    [managed_run] is the first component of the instance state. *)
Definition PatchWithManagedRun_with {Self} (patch_function : PatchFunction Self)
  : PatchFunction (option nat * Self) :=
  mkPatchFunction
    (None, __init__ patch_function)
    (fun original args kws =>
       active <- on_world mlflow_active_run ;;
       (if negb (truthy active) then
          managed_run <- on_world (try_mlflow_log env create_managed_run_with) ;;
          modify (fun s => ((managed_run, snd (fst s)), snd s))
        else ret tt) ;;
       result <- super (_patch_implementation patch_function original args kws) ;;
       s <- get ;;
       (if truthy (fst (fst s)) then
          on_world (try_mlflow_log env (mlflow_end_run FINISHED)) ;; ret tt
        else ret tt) ;;
       ret result)
    (fun e =>
       s <- get ;;
       (if truthy (fst (fst s)) then
          on_world (try_mlflow_log env (mlflow_end_run FAILED)) ;; ret tt
        else ret tt) ;;
       super (_on_exception patch_function e)).

Definition patch_with_managed_run_with (patch_function : PatchFn) : PatchFn :=
  fun original args kws =>
    active <- in_world mlflow_active_run ;;
    managed_run <- (if negb (truthy active)
                    then in_world (try_mlflow_log env create_managed_run_with)
                    else ret None) ;;
    try_except_else
      (patch_function original args kws)
      isinstance_Exception_or_KeyboardInterrupt
      (fun e =>
         (if truthy managed_run then
            in_world (try_mlflow_log env (mlflow_end_run FAILED)) ;; ret tt
          else ret tt) ;;
         raise e)
      (fun result =>
         (if truthy managed_run then
            in_world (try_mlflow_log env (mlflow_end_run FINISHED)) ;; ret tt
          else ret tt) ;;
         ret result).

End over_client.

Definition create_managed_run : M World nat :=
  create_managed_run_with (mlflow_start_run false).

Definition PatchWithManagedRun {Self} (patch_function : PatchFunction Self)
  : PatchFunction (option nat * Self) :=
  PatchWithManagedRun_with (mlflow_start_run false) patch_function.

Definition patch_with_managed_run (patch_function : PatchFn) : PatchFn :=
  patch_with_managed_run_with (mlflow_start_run false) patch_function.

Definition with_managed_run (patch_function : patch_impl) : patch_impl :=
  match patch_function with
  | PatchCls cls => PatchCls (PatchWithManagedRun cls)
  | PatchDef f => PatchDef (patch_with_managed_run f)
  end.

End with_managed_run.

End Safety.
Export Safety.

(** ** The session manager *)

Module SessionManagerM.

(** [_AutologgingSessionManager.active_session()] *)
Definition active_session : M World (option nat) := read (fun w => _session (manager w)).

(** [_AutologgingSessionManager._end_session()] *)
Definition _end_session : M World unit :=
  modify (with_manager (fun m => mkManager None (sessions m) (state_writes m))).

(** [AutologgingSession(integration, id_)], a new object in state running;
    [uuid.uuid4().hex] is rendered by the position of the object. *)
Definition new_session (integration : string) : M World nat :=
  fun w =>
    let m := manager w in
    (Val (length (sessions m)),
     with_manager (fun _ => mkManager (_session m)
                              (sessions m ++ [mkSession integration (length (sessions m)) running])
                              (state_writes m)) w).

Definition set_active (session : nat) : M World unit :=
  modify (with_manager (fun m => mkManager (Some session) (sessions m) (state_writes m))).

(** [with _AutologgingSessionManager.start_session(integration) as session:]
    the body runs with [cls._session], created first when there was none;
    the session is ended on the way out only by the call that created it. *)
Definition start_session {A} (integration : string) (body : nat -> M Ctx A) : M Ctx A :=
  prev_session <- in_world active_session ;;
  try_finally
    (session <- match prev_session with
                | None => session <- in_world (new_session integration) ;;
                          in_world (set_active session) ;;
                          ret session
                | Some session => ret session
                end ;;
     body session)
    (match prev_session with
     | None => in_world _end_session
     | Some _ => ret tt
     end).

(** [session.state] *)
Definition state_of (session : nat) (w : World) : option SessionState :=
  state <$> sessions (manager w) !! session.

(** [session.state = s] *)
Definition set_state (session : nat) (s : SessionState) : M World unit :=
  modify (with_manager (fun m =>
    mkManager (_session m)
              (alter (fun o => mkSession (integration o) (id_ o) s) session (sessions m))
              (state_writes m ++ [(session, s)]))).

End SessionManagerM.
Export SessionManagerM.

(** ** Patch implementations

    The code of a patch implementation is not part of the safety layer; what
    the layer sees of it is a sequence of interactions: it calls the
    [original] it was handed, it acts on the rest of the process (the
    tracking client, other patched functions, anything else), it looks at
    how each of these ended - a value or an exception, which it may handle -
    and it finally returns or raises. *)

Module Instrumentation.

Inductive prog :=
  | Return (v : pyval)
  | Raise (e : exn)
  | CallOriginal (og_args : list pyval) (og_kwargs : kwargs) (k : Res pyval -> prog)
  | Do (action : M World pyval) (k : Res pyval -> prog).

Fixpoint exec (p : prog) (original : Closure) : M Ctx pyval :=
  match p with
  | Return v => ret v
  | Raise e => raise e
  | CallOriginal og_args og_kwargs k =>
      fun c => match original og_args og_kwargs c with
               | (r, c') => exec (k r) original c'
               end
  | Do action k =>
      fun c => match in_world action c with
               | (r, c') => exec (k r) original c'
               end
  end.

(** A patch implementation as [safe_patch] accepts it: a function, or a
    [PatchFunction] subclass with its cleanup hook. *)
Inductive PatchSource :=
  | FunctionPatch (body : list pyval -> kwargs -> prog)
  | ClassPatch (body : list pyval -> kwargs -> prog) (on_exception : exn -> M World unit).

Definition implement (ps : PatchSource) : patch_impl :=
  match ps with
  | FunctionPatch body => PatchDef (fun original args kws => exec (body args kws) original)
  | ClassPatch body on_exception =>
      PatchCls (mkPatchFunction tt
                  (fun original args kws => on_ctx (exec (body args kws) original))
                  (fun e => on_world (on_exception e)))
  end.

End Instrumentation.
Export Instrumentation.

(** ** [safe_patch] and the guarded function it installs *)

Module SafePatch.

(** [_validate_autologging_run(autologging_integration, run_id)] *)
Definition _validate_autologging_run (autologging_integration : string) (run_id : nat)
  : M World unit :=
  run <- get_run run_id ;;
  let autologging_tag_value :=
    snd <$> find (fun kv => String.eqb (fst kv) MLFLOW_AUTOLOGGING) (tags run) in
  assert_ (match autologging_tag_value with
           | Some v => String.eqb v autologging_integration
           | None => false
           end)
    "Autologging run failed to set autologging tag with expected value." ;;
  assert_ (is_terminated (status run)) "Autologging run has a non-terminal status".

Section safe_patch_function.

Variable env : Env.
Variables autologging_integration destination function_name : string.
(** [gorilla.get_original_attribute(destination, function_name)] *)
Variable original : list pyval -> kwargs -> M World pyval.
Variable patch_function : patch_impl.

Definition try_log_autologging_event (log_fn : M World unit) : M Ctx unit :=
  try_except (in_world log_fn) isinstance_Exception
    (fun e => in_world (emit (LogDebug "Failed to log autologging event"))).

Definition log (kind : EventKind) (session : nat) (args : list pyval) (kws : kwargs)
    (e : option exn) : M Ctx unit :=
  try_log_autologging_event (log_event kind session destination function_name args kws e).

Definition note_call (call : OgCall) (f : Frame) : Frame :=
  mkFrame (preexisting_run_for_testing f) (original_has_been_called f)
          (original_result f) (failed_during_original f)
          (patch_function_run_for_testing f) (og_calls f ++ [call]).

(** [original(args, kwargs)]; the invocation is noted in [og_calls]. *)
Definition invoke_original (args : list pyval) (kws : kwargs) : M Ctx pyval :=
  fun c =>
    match in_world (original args kws) c with
    | (r, c') => (r, with_locals (note_call (args, kws, r)) c')
    end.

(** Lines 366-380: whether instrumentation is skipped. *)
Definition user_created_fluent_run_is_active (w : World) : bool :=
  truthy (active_run_in w) && negb (truthy (_session (manager w))).

Definition active_session_failed (w : World) : bool :=
  match _session (manager w) with
  | None => false
  | Some session =>
      match state_of session w with
      | Some failed => true
      | _ => false
      end
  end.

Definition short_circuit (w : World) : bool :=
  let exclusive := get_autologging_config env autologging_integration "exclusive" false in
  active_session_failed w
  || autologging_is_disabled env autologging_integration
  || (user_created_fluent_run_is_active w && exclusive)
  || _AUTOLOGGING_GLOBALLY_DISABLED env.

(** The closure [call_original] of one guarded call. *)
Definition call_original (session : nat) (args : list pyval) (kws : kwargs) : Closure :=
  fun og_args og_kwargs =>
    try_except
      (log original_function_start session og_args og_kwargs None ;;
       (if is_testing env then
          of_res (_validate_args args kws og_args og_kwargs) ;;
          active <- in_world mlflow_active_run ;;
          set_local (fun f =>
            mkFrame (preexisting_run_for_testing f) (original_has_been_called f)
                    (original_result f) (failed_during_original f) active (og_calls f))
        else ret tt) ;;
       set_local (fun f =>
         mkFrame (preexisting_run_for_testing f) true
                 (original_result f) (failed_during_original f)
                 (patch_function_run_for_testing f) (og_calls f)) ;;
       result <- set_non_mlflow_warnings_behavior_for_current_thread false false
                   (invoke_original og_args og_kwargs) ;;
       set_local (fun f =>
         mkFrame (preexisting_run_for_testing f) (original_has_been_called f)
                 result (failed_during_original f)
                 (patch_function_run_for_testing f) (og_calls f)) ;;
       log original_function_success session og_args og_kwargs None ;;
       f <- get_locals ;;
       ret (original_result f))
      isinstance_Exception
      (fun e =>
         log original_function_error session og_args og_kwargs (Some e) ;;
         set_local (fun f =>
           mkFrame (preexisting_run_for_testing f) (original_has_been_called f)
                   (original_result f) true
                   (patch_function_run_for_testing f) (og_calls f)) ;;
         raise e).

(** Lines 489-492: the patch is called; what it returns is not kept. *)
Definition invoke_patch (call_original : Closure) (args : list pyval) (kws : kwargs)
  : M Ctx pyval :=
  match patch_function with
  | PatchCls cls => call cls call_original args kws
  | PatchDef f => f call_original args kws
  end.

(** Lines 504-527: the handler of [except Exception as e]. *)
Definition on_patch_exception (session : nat) (args : list pyval) (kws : kwargs) (e : exn)
  : M Ctx unit :=
  in_world (set_state session failed) ;;
  f <- get_locals ;;
  if failed_during_original f || is_testing env then raise e
  else
    log patch_function_error session args kws (Some e) ;;
    in_world (emit (LogWarning
      ("Encountered unexpected error during " ++ autologging_integration
       ++ " autologging: " ++ exn_msg e))).

(** Lines 529-538: in test mode, no run may be left active. *)
Definition check_runs : M Ctx unit :=
  f <- get_locals ;;
  if is_testing env then
    match preexisting_run_for_testing f with
    | None =>
        raise (Exn UnboundLocalError
                 "local variable 'preexisting_run_for_testing' referenced before assignment")
    | Some preexisting =>
        if negb (truthy preexisting) then
          active <- in_world mlflow_active_run ;;
          assert_ (negb (truthy active)) "Autologging integration leaked an active run" ;;
          match patch_function_run_for_testing f with
          | Some run => in_world (_validate_autologging_run autologging_integration run)
          | None => ret tt
          end
        else ret tt
    end
  else ret tt.

(** Lines 540-543. *)
Definition result_or_fallback (args : list pyval) (kws : kwargs) : M Ctx pyval :=
  f <- get_locals ;;
  if original_has_been_called f then ret (original_result f)
  else invoke_original args kws.

Definition safe_patch_function (args : list pyval) (kws : kwargs) : M Ctx pyval :=
  let is_silent_mode := get_autologging_config env autologging_integration "silent" false in
  set_mlflow_events_and_warnings_behavior_globally true is_silent_mode is_silent_mode
  (set_non_mlflow_warnings_behavior_for_current_thread is_silent_mode true
  ((if is_testing env then
      preexisting <- in_world mlflow_active_run ;;
      set_local (fun f =>
        mkFrame (Some preexisting) (original_has_been_called f)
                (original_result f) (failed_during_original f)
                (patch_function_run_for_testing f) (og_calls f))
    else ret tt) ;;
   skip <- in_world (read short_circuit) ;;
   if skip then
     set_non_mlflow_warnings_behavior_for_current_thread false false
       (invoke_original args kws)
   else
     set_local (fun f =>
       mkFrame (preexisting_run_for_testing f) false VNone false None (og_calls f)) ;;
     start_session autologging_integration (fun session =>
       try_except
         (log patch_function_start session args kws None ;;
          invoke_patch (call_original session args kws) args kws ;;
          in_world (set_state session succeeded) ;;
          log patch_function_success session args kws None)
         isinstance_Exception
         (on_patch_exception session args kws) ;;
       check_runs ;;
       result_or_fallback args kws))).

End safe_patch_function.

(** [safe_patch(autologging_integration, destination, function_name,
    patch_function, manage_run)]: the function put in place of the
    original. *)
Definition managed (env : Env) (autologging_integration : string)
    (patch_function : patch_impl) (manage_run : bool) : patch_impl :=
  if manage_run then
    with_managed_run env autologging_integration
      [(MLFLOW_AUTOLOGGING, autologging_integration)] patch_function
  else patch_function.

Definition safe_patch (env : Env) (autologging_integration destination function_name : string)
    (original : list pyval -> kwargs -> M World pyval)
    (patch_function : patch_impl) (manage_run : bool) : list pyval -> kwargs -> M Ctx pyval :=
  let patch_function := managed env autologging_integration patch_function manage_run in
  safe_patch_function env autologging_integration destination function_name original
    patch_function.

(** A call of the installed function by a caller, in a frame of its own. *)
Definition guarded (f : list pyval -> kwargs -> M Ctx pyval) (args : list pyval) (kws : kwargs)
  : M World pyval :=
  fun w => match f args kws (enter w) with (r, c) => (r, world c) end.

End SafePatch.
Export SafePatch.

(** ** The registry of installed patches *)

Module Registry.

(** [gorilla.Patch(destination, name, obj, settings)]; functions are
    referred to by their address. *)
Record Patch := mkPatch {
  patch_destination : string;
  patch_name : string;
  patch_obj : nat
}.

#[global] Instance Patch_eq_dec : EqDecision Patch.
Proof. solve_decision. Defined.

#[global] Instance Patch_countable : Countable Patch :=
  inj_countable'
    (fun p => (patch_destination p, patch_name p, patch_obj p))
    (fun t => mkPatch (fst (fst t)) (snd (fst t)) (snd t))
    (fun p => match p with mkPatch _ _ _ => eq_refl end).

(** The attributes of the patched modules and classes, the originals that
    gorilla keeps aside, and the module-level dictionary
    [_AUTOLOGGING_PATCHES]. *)
Record Process := mkProcess {
  attributes : gmap (string * string) nat;
  stored_originals : gmap (string * string) nat;
  _AUTOLOGGING_PATCHES : gmap string (gset Patch)
}.

(** Modelled from the spec: the interception mechanism
    ([gorilla.apply], [gorilla.get_original_attribute], [gorilla.revert]),
    not part of the sources at hand: [apply] replaces the attribute and
    keeps the original for a later reversion, [getOriginal] gives the
    original back, [revert] restores it. *)
Definition gorilla_apply (patch : Patch) (p : Process) : Process :=
  let key := (patch_destination patch, patch_name patch) in
  mkProcess (<[key := patch_obj patch]> (attributes p))
            (match stored_originals p !! key, attributes p !! key with
             | None, Some f => <[key := f]> (stored_originals p)
             | _, _ => stored_originals p
             end)
            (_AUTOLOGGING_PATCHES p).

Definition gorilla_get_original_attribute (destination name : string) (p : Process) : option nat :=
  match stored_originals p !! (destination, name) with
  | Some f => Some f
  | None => attributes p !! (destination, name)
  end.

Definition gorilla_revert (patch : Patch) (p : Process) : Process :=
  let key := (patch_destination patch, patch_name patch) in
  match stored_originals p !! key with
  | Some f =>
      mkProcess (<[key := f]> (attributes p)) (delete key (stored_originals p))
                (_AUTOLOGGING_PATCHES p)
  | None => p
  end.

(** [_wrap_patch(destination, name, patch)] *)
Definition _wrap_patch (destination name : string) (patch : nat) (p : Process)
  : Patch * Process :=
  let patch := mkPatch destination name patch in
  (patch, gorilla_apply patch p).

(** [_store_patch(autologging_integration, patch)] *)
Definition _store_patch (autologging_integration : string) (patch : Patch) (p : Process)
  : Process :=
  mkProcess (attributes p) (stored_originals p)
    (match _AUTOLOGGING_PATCHES p !! autologging_integration with
     | Some patches =>
         <[autologging_integration := patches ∪ {[patch]}]> (_AUTOLOGGING_PATCHES p)
     | None =>
         <[autologging_integration := {[patch]}]> (_AUTOLOGGING_PATCHES p)
     end).

(** The last two lines of [safe_patch]. *)
Definition install (autologging_integration destination function_name : string)
    (safe_patch_function : nat) (p : Process) : Process :=
  let (new_patch, p') := _wrap_patch destination function_name safe_patch_function p in
  _store_patch autologging_integration new_patch p'.

(** [revert_patches(autologging_integration)] *)
Definition revert_patches (autologging_integration : string) (p : Process) : Process :=
  let p' :=
    foldl (fun q patch => gorilla_revert patch q) p
      (match _AUTOLOGGING_PATCHES p !! autologging_integration with
       | Some patches => elements patches
       | None => []
       end) in
  mkProcess (attributes p') (stored_originals p')
            (delete autologging_integration (_AUTOLOGGING_PATCHES p')).

(** The name under which the fluent API ([mlflow.autolog]) registers itself. *)
Definition FLUENT_API_NAME : string := "mlflow".

End Registry.
Export Registry.

(** ** Exception-safe functions and classes *)

Module ExceptionSafe.

(** A function object, as far as the module looks at it: its name, its
    docstring, what [inspect.signature] gives for it ([None] when it cannot
    be inspected), its attribute [exception_safe], whether attributes can
    be set on it (on a builtin or a bound method they cannot: [setattr]
    raises [AttributeError]) and its code.  The attribute [exception_safe]
    is only ever set to [True], and read with
    [getattr(f, "exception_safe", False)], so it is kept as a truth value,
    absent being false. *)
Record Function := mkFunction {
  fn_name : string;
  fn_doc : option string;
  fn_signature : option string;
  fn_exception_safe : bool;
  fn_accepts_attributes : bool;
  fn_call : list pyval -> kwargs -> M World pyval
}.

(** [setattr(f, "exception_safe", True)] *)
Definition set_exception_safe (f : Function) : M World Function :=
  if fn_accepts_attributes f then
    ret (mkFunction (fn_name f) (fn_doc f) (fn_signature f) true (fn_accepts_attributes f)
                    (fn_call f))
  else raise (Exn AttributeError "object has no attribute 'exception_safe'").

(** [inspect.signature(f)], which raises for what it cannot inspect. *)
Definition inspect_signature (f : Function) : M World string :=
  match fn_signature f with
  | Some sig => ret sig
  | None => raise (Exn ValueError "no signature found")
  end.

(** [update_wrapper_extended(wrapper, wrapped)].  [functools.update_wrapper]
    gives [wrapper] the name and the docstring of [wrapped], merges the
    attributes of [wrapped] into those of [wrapper] and makes [wrapper]
    unwrap to [wrapped] - all by [setattr] on [wrapper], which raises when
    [wrapper] takes no attributes; the signature of [wrapped] is then
    attached, or a debug line is logged when it cannot be inspected. *)
Definition update_wrapper_extended (wrapper wrapped : Function) : M World Function :=
  if fn_accepts_attributes wrapper then
    let updated_wrapper :=
      mkFunction (fn_name wrapped) (fn_doc wrapped) (fn_signature wrapped)
                 (fn_exception_safe wrapped || fn_exception_safe wrapper)
                 (fn_accepts_attributes wrapper) (fn_call wrapper) in
    try_except
      (sig <- inspect_signature wrapped ;;
       ret (mkFunction (fn_name updated_wrapper) (fn_doc updated_wrapper) (Some sig)
                       (fn_exception_safe updated_wrapper)
                       (fn_accepts_attributes updated_wrapper) (fn_call updated_wrapper)))
      isinstance_Exception
      (fun _ =>
         emit (LogDebug "Failed to restore original signature for wrapper") ;;
         ret updated_wrapper)
  else raise (Exn AttributeError "attribute cannot be set on the wrapper").

(** [exception_safe_function(function)]: in test mode [function] is marked
    first, which fails for a function that takes no attributes; the wrapper
    [safe_function], a plain function, then takes over the attributes of
    [function].  The result is the wrapper; the marked [function] object
    itself is not followed any further. *)
Definition exception_safe_function (env : Env) (function : Function) : M World Function :=
  function <- (if is_testing env then set_exception_safe function else ret function) ;;
  let safe_function :=
    mkFunction "safe_function" None (Some "*args, **kwargs") false true
      (fun args kws =>
         try_except (fn_call function args kws) isinstance_Exception
           (fun e =>
              if is_testing env then raise e
              else
                emit (LogWarning ("Encountered unexpected error during autologging: "
                                  ++ exn_msg e)) ;;
                ret VNone)) in
  update_wrapper_extended safe_function function.

(** A function object passed as an argument, living at [addr]. *)
Definition callable_value (addr : nat) (f : Function) : pyval :=
  VCallable addr (fn_exception_safe f).

(** An entry of a class body, with what [callable] says of it: true for a
    plain function or a nested class (and, from Python 3.10 on, for a static
    method), false for a class method, a data attribute and the like. *)
Inductive Member :=
  | Callable (f : Function)
  | NotCallable (v : pyval).

Record Class := mkClass {
  class_name : string;
  class_metaclass : metaclass;
  class_dict : list (string * Member)
}.

(** The loop of [_ExceptionSafeClass.__new__]:
    [for m in dct: if callable(dct[m]): dct[m] = exception_safe_function(dct[m])] *)
Fixpoint wrap_callables (env : Env) (dct : list (string * Member))
  : M World (list (string * Member)) :=
  match dct with
  | [] => ret []
  | (m, Callable f) :: rest =>
      f' <- exception_safe_function env f ;;
      rest' <- wrap_callables env rest ;;
      ret ((m, Callable f') :: rest')
  | (m, NotCallable v) :: rest =>
      rest' <- wrap_callables env rest ;;
      ret ((m, NotCallable v) :: rest')
  end.

(** [_ExceptionSafeClass.__new__(cls, name, bases, dct)], [cls] being
    [ExceptionSafeClass] (over [type]) or [ExceptionSafeAbstractClass] (over
    [abc.ABCMeta]). *)
Definition _ExceptionSafeClass_new (env : Env) (cls : metaclass) (name : string)
    (dct : list (string * Member)) : M World Class :=
  dct' <- wrap_callables env dct ;;
  ret (mkClass name cls dct').

End ExceptionSafe.
Export ExceptionSafe.


(** * Properties *)

(** ** Vocabulary *)

Module Vocabulary.

(** The session a guarded call entered in [w] runs in: the ambient one, or
    the one it is about to create. *)
Definition session_of (w : World) : nat :=
  match _session (manager w) with
  | Some session => session
  | None => length (sessions (manager w))
  end.

Definition open_session (integration : string) (m : SessionManager) : SessionManager :=
  match _session m with
  | Some _ => m
  | None =>
      mkManager (Some (length (sessions m)))
                (sessions m ++ [mkSession integration (length (sessions m)) running])
                (state_writes m)
  end.

(** The diagnostics in force around the patch code. *)
Definition rerouted (env : Env) (integration : string) : Diagnostics :=
  let silent := get_autologging_config env integration "silent" false in
  mkDiagnostics (mkThreadWarnings silent true) (mkGlobalBehavior true silent silent).

(** The state in which a guarded call entered in [w], and not skipped,
    invokes the patch implementation. *)
Definition entry (env : Env) (integration destination function_name : string)
    (args : list pyval) (kws : kwargs) (w : World) : Ctx :=
  mkCtx
    (mkFrame (if is_testing env then Some (active_run_in w) else None) false VNone false None [])
    (mkWorld (open_session integration (manager w))
             (tracking w)
             (rerouted env integration)
             (mkSinks (events (sinks w)
                       ++ [mkEvent patch_function_start (session_of w) destination function_name
                                   args kws None])
                      (logs (sinks w)) (journal (sinks w)))).

(** What the guarded call entered in [w] does on its way out: the session
    is ended if the call created it, the diagnostics are as they were. *)
Definition leave (w : World) (c : Ctx) : Ctx :=
  mkCtx (locals c)
    (mkWorld (if truthy (_session (manager w)) then manager (world c)
              else mkManager None (sessions (manager (world c)))
                             (state_writes (manager (world c))))
             (tracking (world c))
             (diagnostics w)
             (sinks (world c))).

Definition leaving {A} (w : World) (x : Res A * Ctx) : Res A * Ctx := (fst x, leave w (snd x)).

End Vocabulary.
Export Vocabulary.

Module ManagedRuns.

(** The world after the wrapper has created its run, and after the active
    run has been ended with status [s]. *)
Definition created (integration : string) (tags : list (string * string)) (w : World) : World :=
  snd (create_managed_run integration tags w).

Definition ended (s : RunStatus) (w : World) : World := snd (mlflow_end_run s w).

(** The status with which the wrapper ends its run, given how the wrapped
    implementation ended; none for what [except (Exception,
    KeyboardInterrupt)] lets through. *)
Definition verdict (r : Res pyval) : option RunStatus :=
  match r with
  | Val _ => Some FINISHED
  | Exc e => if isinstance_Exception_or_KeyboardInterrupt e then Some FAILED else None
  end.




End ManagedRuns.
Export ManagedRuns.

Module Patches.

(** The code of a patch, and a patch that lets the exceptions of the
    original function through: wherever it calls [original], an exception
    coming out of that call ends the patch with that exception. *)
Definition body_of (ps : PatchSource) : list pyval -> kwargs -> prog :=
  match ps with
  | FunctionPatch body => body
  | ClassPatch body _ => body
  end.

Fixpoint propagating (p : prog) : Prop :=
  match p with
  | Return _ | Raise _ => True
  | CallOriginal _ _ k => (forall e, k (Exc e) = Raise e) /\ (forall r, propagating (k r))
  | Do _ k => forall r, propagating (k r)
  end.

Definition lets_failures_through (ps : PatchSource) : Prop :=
  forall args kws, propagating (body_of ps args kws).

(** An invocation of the original function that returned, and the reading
    of "a failure of the original function surfaces": either every
    invocation so far returned, or the last one raised [E], the outcome at
    hand is [E], and the frame remembers the failure when [E] is an
    [Exception]. *)
Definition returned (call : OgCall) : Prop := exists v, snd call = Val v.

Definition failure_surfaces (r : Res pyval) (f : Frame) : Prop :=
  Forall returned (og_calls f)
  \/ exists t a kw E,
       og_calls f = (t ++ [(a, kw, Exc E)])%list
       /\ Forall returned t
       /\ r = Exc E
       /\ (isinstance_Exception E = true -> failed_during_original f = true).

(** An original function that is not looked at. *)
Definition unused_original : Closure := fun _ _ => ret VNone.

End Patches.
Export Patches.

(** ** Sample processes, originals and patches *)

Module Scenarios.

Definition no_diagnostics : Diagnostics :=
  mkDiagnostics (mkThreadWarnings false false) (mkGlobalBehavior false false false).

(** The integration [name] is enabled; test mode is as given. *)
Definition env_of (name : string) (testing : bool) : Env :=
  mkEnv (if testing then {[ _AUTOLOGGING_TEST_MODE_ENV_VAR := "true" ]} else ∅)
        {[ name := {[ "disable" := false ]} ]}
        false.

(** Nothing has run yet. *)
Definition fresh_world : World :=
  mkWorld (mkManager None [] []) (mkTracking [] []) no_diagnostics (mkSinks [] [] []).

Definition add (a b : pyval) : Res pyval :=
  match a, b with
  | VInt x, VInt y => Val (VInt (x + y))
  | _, _ => Exc (Exn ExceptionCls "unsupported operand type(s) for +")
  end.

Definition write_journal (v : pyval) : M World pyval :=
  fun w => (Val VNone, with_sinks (fun s => mkSinks (events s) (logs s) (journal s ++ [v])) w).

(** [lambda x: x * 2], leaving a line in the journal each time it runs. *)
Definition double : list pyval -> kwargs -> M World pyval :=
  fun args kws =>
    match args with
    | [VInt x] => write_journal (VStr "original ran") ;; ret (VInt (x * 2))
    | _ => raise (Exn ExceptionCls "bad operand")
    end.

(** Scenario A: [def f(original, x): return original(x) + 1]. *)
Definition plus_one_patch : PatchSource :=
  FunctionPatch (fun args kws =>
    match args with
    | [x] =>
        CallOriginal [x] [] (fun r =>
          match r with
          | Val y => match add y (VInt 1) with Val v => Return v | Exc e => Raise e end
          | Exc e => Raise e
          end)
    | _ => Raise (Exn ExceptionCls "f() takes 1 positional argument")
    end).

Definition scenario_a (testing : bool) : Res pyval * Ctx :=
  safe_patch (env_of "sklearn" testing) "sklearn" "Model" "fit" double
    (implement plus_one_patch) false [VInt 5] [] (enter fresh_world).

(** Scenario B: [def f(original, x): raise ValueError("bad")]. *)
Definition bad : exn := Exn ValueError "bad".

Definition raising_patch : PatchSource := FunctionPatch (fun _ _ => Raise bad).

(** An original function that fails, and a patch that calls it inside
    [try: ... except Exception: pass]. *)
Definition boom : exn := Exn ValueError "boom".

Definition failing_original : list pyval -> kwargs -> M World pyval :=
  fun _ _ => raise boom.

Definition swallowing_patch : PatchSource :=
  FunctionPatch (fun args kws => CallOriginal args kws (fun _ => Return VNone)).

Definition scenario_swallow (testing : bool) : Res pyval * Ctx :=
  safe_patch (env_of "sklearn" testing) "sklearn" "Model" "fit" failing_original
    (implement swallowing_patch) false [VInt 5] [] (enter fresh_world).

(** A patch that forwards its arguments, and a patch whose code calls
    another patched function before it fails. *)
Definition forwarding_patch : PatchSource :=
  FunctionPatch (fun args kws =>
    CallOriginal args kws (fun r => match r with Val v => Return v | Exc e => Raise e end)).

Definition inner_call (env : Env) : M World pyval :=
  guarded (safe_patch env "sklearn" "Pipeline" "fit" double (implement forwarding_patch) false)
    [VInt 1] [].

Definition SessionState_name (s : SessionState) : string :=
  match s with running => "running" | succeeded => "succeeded" | failed => "failed" end.

(** [_AutologgingSessionManager.active_session().state], noted in the
    journal. *)
Definition note_session_state : M World pyval :=
  fun w =>
    match _session (manager w) with
    | Some session =>
        match state_of session w with
        | Some s => write_journal (VStr (SessionState_name s)) w
        | None => (Val VNone, w)
        end
    | None => (Val VNone, w)
    end.

Definition late : exn := Exn RuntimeError "after the nested call".

Definition nesting_patch (env : Env) : PatchSource :=
  FunctionPatch (fun _ _ =>
    Do (inner_call env) (fun _ =>
    Do note_session_state (fun _ =>
    Raise late))).

Definition scenario_nested : Res pyval * Ctx :=
  let env := env_of "sklearn" false in
  safe_patch env "sklearn" "Model" "fit" double (implement (nesting_patch env)) false
    [VInt 5] [] (enter fresh_world).



(** One integration has patched [Model.fit]; nothing is recorded under the
    name of the fluent API. *)
Definition sklearn_fit : Patch := mkPatch "sklearn.Model" "fit" 101.

Definition one_integration : Process :=
  install "sklearn" "sklearn.Model" "fit" 101
    (mkProcess {[ ("sklearn.Model", "fit") := 100 ]} ∅ ∅).

(** The same failing original under a patch that forwards its arguments. *)
Definition scenario_forward : Res pyval * Ctx :=
  safe_patch (env_of "sklearn" false) "sklearn" "Model" "fit" failing_original
    (implement forwarding_patch) false [VInt 5] [] (enter fresh_world).


(** A patch interrupted from the keyboard before it calls the original. *)
Definition ctrl_c : exn := Exn KeyboardInterrupt "".

Definition interrupted_patch : PatchSource := FunctionPatch (fun _ _ => Raise ctrl_c).

(** A [PatchFunction] whose implementation fails and whose cleanup hook
    fails as well. *)
Definition failing_hook_class : PatchFunction unit :=
  mkPatchFunction tt (fun _ _ _ => raise bad) (fun _ => raise late).

(** No integration is configured, so every integration counts as disabled. *)
Definition unconfigured : Env := mkEnv ∅ ∅ false.


End Scenarios.
Export Scenarios.

(** ** Further vocabulary *)

Module MoreVocabulary.

(** The two loops of [_validate], on their own: over
    [zip_longest(autologging_call_input, user_call_input)] and over the keys
    of the autologging side. *)
Fixpoint validate_zip (la lu : list pyval) : Res unit :=
  match la with
  | [] => Val tt
  | a :: la' =>
      match _validate a (hd VNone lu) with
      | Val _ => validate_zip la' (tl lu)
      | Exc e => Exc e
      end
  end.

Fixpoint validate_items (l : list (string * pyval)) (du : kwargs) : Res unit :=
  match l with
  | [] => Val tt
  | (key, a) :: l' =>
      match _validate a (dict_get du key) with
      | Val _ => validate_items l' du
      | Exc e => Exc e
      end
  end.

(** What [_validate] does with an input that has no counterpart on the
    user's side. *)
Definition validate_added (v : pyval) : Res unit :=
  if is_None v then Val tt else _validate_new_input v.

(** Integers, strings and truth values. *)
Definition scalar (v : pyval) : Prop :=
  match v with
  | VBool _ | VInt _ | VStr _ => True
  | _ => False
  end.

(** The value of the last invocation of the original function that
    returned, [None] when none did. *)
Definition last_returned (calls : list OgCall) : pyval :=
  foldl (fun acc call => match snd call with Val v => v | Exc _ => acc end) VNone calls.

(** What the variables of a guarded call remember of the invocations made
    so far: whether there was one and the result of the last one that
    returned; and, outside test mode, a failure only if one raised. *)
Definition remembers_result (f : Frame) : Prop :=
  original_result f = last_returned (og_calls f)
  /\ original_has_been_called f = match og_calls f with [] => false | _ :: _ => true end.

Definition remembers_failure (f : Frame) : Prop :=
  failed_during_original f = true ->
  exists a kw E, In (a, kw, Exc E) (og_calls f) /\ isinstance_Exception E = true.

(** And the other way round, in test mode and outside it: an invocation
    that raised an [Exception] is remembered as a failure. *)
Definition records_failure (f : Frame) : Prop :=
  forall a kw E,
    In (a, kw, Exc E) (og_calls f) -> isinstance_Exception E = true ->
    failed_during_original f = true.

(** A member of the class made by the metaclass stands for a member of the
    class body: under the same name, a non-callable as it was, a callable
    wrapped. *)
Definition wrapped_member (env : Env) (old new : string * Member) : Prop :=
  fst new = fst old
  /\ match snd old, snd new with
     | NotCallable v, NotCallable v' => v' = v
     | Callable f, Callable f' => exists w, fst (exception_safe_function env f w) = Val f'
     | _, _ => False
     end.

(** A member of a class body that [exception_safe_function] can mark in
    test mode: attributes can be set on it if it is callable. *)
Definition takes_attributes (member : string * Member) : Prop :=
  match snd member with
  | Callable f => fn_accepts_attributes f = true
  | NotCallable _ => True
  end.

End MoreVocabulary.
Export MoreVocabulary.

(** ** Further samples *)

Module Samples.

(** A callback whose code fails and whose signature cannot be inspected,
    and the body of a callback class. *)
Definition failing_callback : Function :=
  mkFunction "on_epoch_end" (Some "Log the metrics of the epoch.") None false true
    (fun _ _ => raise bad).

(** A builtin function: attributes cannot be set on it. *)
Definition builtin_print : Function :=
  mkFunction "print" (Some "Prints the values to a stream.") None false false
    (fun _ _ => ret VNone).


(** A patch that starts a run and returns without ending it. *)
Definition leaking_patch : PatchSource :=
  FunctionPatch (fun args kws =>
    CallOriginal args kws (fun _ =>
    Do (run <- mlflow_start_run false [] ;; ret VNone) (fun _ => Return VNone))).

(** A patch that runs cleanup when the original function fails, before
    the failure propagates:
    [try: return original(args, kwargs)  finally: cleanup()]. *)
Definition cleanup_patch : PatchSource :=
  FunctionPatch (fun args kws =>
    CallOriginal args kws (fun r =>
    Do (write_journal (VStr "cleanup")) (fun done =>
    match done, r with
    | Exc e', _ => Raise e'
    | Val _, Val v => Return v
    | Val _, Exc e => Raise e
    end))).

(** A patch that handles the failure of the original function and then
    fails itself:
    [try: original(args, kwargs)  except Exception: raise ValueError("bad")]. *)
Definition replacing_patch : PatchSource :=
  FunctionPatch (fun args kws =>
    CallOriginal args kws (fun r =>
    match r with
    | Val v => Return v
    | Exc e => if isinstance_Exception e then Raise bad else Raise e
    end)).

(** The failing original under the patch with cleanup and under the patch
    that replaces the failure, outside test mode. *)
Definition scenario_cleanup : Res pyval * Ctx :=
  safe_patch (env_of "sklearn" false) "sklearn" "Model" "fit" failing_original
    (implement cleanup_patch) false [VInt 5] [] (enter fresh_world).

Definition scenario_replace : Res pyval * Ctx :=
  safe_patch (env_of "sklearn" false) "sklearn" "Model" "fit" failing_original
    (implement replacing_patch) false [VInt 5] [] (enter fresh_world).

(** The patch of the nested scenario, as the outer guarded call invokes
    it. *)
Definition nested_patched : Res pyval * Ctx :=
  let env := env_of "sklearn" false in
  invoke_patch (implement (nesting_patch env))
    (call_original env "Model" "fit" double (session_of fresh_world) [VInt 5] [])
    [VInt 5] [] (entry env "sklearn" "Model" "fit" [VInt 5] [] fresh_world).



End Samples.
Export Samples.

(** ** Auxiliary facts *)

(** Simplification that keeps the named parts of [safe_patch_function]
    folded, and the unfolding of the state plumbing. *)
Ltac step :=
  cbn -[check_runs result_or_fallback on_patch_exception invoke_patch call_original
        short_circuit].

Ltac plumbing := unfold on_world; unfold on_ctx, in_world; unfold zoom.

Lemma bind_val {St A B} (m : M St A) (k : A -> M St B) s a s' :
  m s = (Val a, s') -> bind m k s = k a s'.
Proof. intros H. unfold bind. by rewrite H. Qed.

Lemma bind_exc {St A B} (m : M St A) (k : A -> M St B) s e s' :
  m s = (Exc e, s') -> bind m k s = (Exc e, s').
Proof. intros H. unfold bind. by rewrite H. Qed.

Lemma diagnostics_eta d : mkDiagnostics (thread_warnings d) (global_behavior d) = d.
Proof. by destruct d. Qed.

Lemma short_circuit_ext env integ w' w :
  manager w' = manager w -> tracking w' = tracking w ->
  short_circuit env integ w' = short_circuit env integ w.
Proof.
  intros Hm Ht.
  unfold short_circuit, active_session_failed, user_created_fluent_run_is_active, state_of,
    active_run_in.
  by rewrite Hm, Ht.
Qed.

Lemma unfold_instrumented env integ dest fn original pf args kws w :
  short_circuit env integ w = false ->
  safe_patch_function env integ dest fn original pf args kws (enter w) =
    let session := session_of w in
    match invoke_patch pf (call_original env dest fn original session args kws) args kws
            (entry env integ dest fn args kws w) with
    | (Val _, c2) =>
        leaving w
          ((in_world (set_state session succeeded) ;;
            log dest fn patch_function_success session args kws None ;;
            check_runs env integ ;;
            result_or_fallback original args kws) c2)
    | (Exc e, c2) =>
        if isinstance_Exception e then
          leaving w
            ((on_patch_exception env integ dest fn session args kws e ;;
              check_runs env integ ;;
              result_or_fallback original args kws) c2)
        else (Exc e, leave w c2)
    end.
Proof.
  intros Hskip.
  unfold safe_patch_function, set_mlflow_events_and_warnings_behavior_globally,
    set_non_mlflow_warnings_behavior_for_current_thread.
  unfold leaving, leave, entry, session_of, open_session, rerouted, start_session.
  unfold bind, in_world, zoom, read, set_local, modify, ret, try_finally, try_except,
    active_session, new_session, set_active, _end_session, log, try_log_autologging_event,
    log_event, emit, mlflow_active_run, install_thread, install_global, set_state,
    with_world, with_sinks, with_diagnostics, with_manager, with_locals, active_run_in, enter.
  step.
  destruct (is_testing env);
    step;
    rewrite (short_circuit_ext env integ _ w) by reflexivity; rewrite Hskip;
    step.
  all: destruct (_session (manager w)) as [s|] eqn:Hs;
    step.
  all: match goal with |- context [invoke_patch ?a ?b ?c ?d ?e] =>
         destruct (invoke_patch a b c d e) as [[v|e0] c2] end;
    step.
  all: repeat (match goal with
       | |- context [isinstance_Exception ?e] => destruct (isinstance_Exception e)
       | |- context [on_patch_exception ?a ?b ?c ?d ?e ?f ?g ?h ?i] =>
           destruct (on_patch_exception a b c d e f g h i) as [[?|?] ?]
       | |- context [check_runs ?a ?b ?c] => destruct (check_runs a b c) as [[?|?] ?]
       | |- context [result_or_fallback ?a ?b ?c ?d] =>
           destruct (result_or_fallback a b c d) as [[?|?] ?]
       end;
       step).
  all: rewrite ?diagnostics_eta; try reflexivity.
Qed.

Lemma unfold_skipped env integ dest fn original pf args kws w :
  short_circuit env integ w = true ->
  safe_patch_function env integ dest fn original pf args kws (enter w) =
    let silent := get_autologging_config env integ "silent" false in
    let w_in :=
      with_diagnostics (fun _ => mkDiagnostics (mkThreadWarnings false false)
                                               (mkGlobalBehavior true silent silent)) w in
    (fst (original args kws w_in),
     mkCtx (mkFrame (if is_testing env then Some (active_run_in w) else None)
                    false VNone false None [(args, kws, fst (original args kws w_in))])
           (with_diagnostics (fun _ => diagnostics w) (snd (original args kws w_in)))).
Proof.
  intros Hskip.
  unfold safe_patch_function, set_mlflow_events_and_warnings_behavior_globally,
    set_non_mlflow_warnings_behavior_for_current_thread, invoke_original, note_call.
  unfold bind, in_world, zoom, read, set_local, modify, ret, mlflow_active_run, install_thread,
    install_global, with_world, with_sinks, with_diagnostics, with_manager, with_locals,
    active_run_in, enter.
  cbn -[short_circuit].
  destruct (is_testing env); cbn -[short_circuit];
    rewrite (short_circuit_ext env integ _ w) by reflexivity; rewrite Hskip; cbn.
  all: destruct (original args kws _) as [r w']; cbn; by rewrite diagnostics_eta.
Qed.

(** C7.  If the active session is in state failed, or the integration is
    disabled, or a user-created run is active while the integration is
    exclusive, or autologging is globally disabled, the guarded call is the
    direct call of the original function with the caller's arguments: that
    call sees the session manager and the event log as they were on entry
    (no session is opened, nothing is logged) and the normal warning
    behaviour; the patch implementation does not take part; the outcome of
    the original function is the outcome of the guarded call. *)
Theorem short_circuit_calls_original env integ dest fn original pf manage_run args kws w :
  active_session_failed w = true
  \/ autologging_is_disabled env integ = true
  \/ (user_created_fluent_run_is_active w = true
      /\ get_autologging_config env integ "exclusive" false = true)
  \/ _AUTOLOGGING_GLOBALLY_DISABLED env = true ->
  let silent := get_autologging_config env integ "silent" false in
  let w_in :=
    with_diagnostics (fun _ => mkDiagnostics (mkThreadWarnings false false)
                                             (mkGlobalBehavior true silent silent)) w in
  manager w_in = manager w /\
  sinks w_in = sinks w /\
  safe_patch env integ dest fn original pf manage_run args kws (enter w) =
    (fst (original args kws w_in),
     mkCtx (mkFrame (if is_testing env then Some (active_run_in w) else None)
                    false VNone false None [(args, kws, fst (original args kws w_in))])
           (with_diagnostics (fun _ => diagnostics w) (snd (original args kws w_in)))).
Proof.
  intros H silent w_in. split; [reflexivity|]. split; [reflexivity|].
  unfold safe_patch. apply unfold_skipped.
  unfold short_circuit.
  destruct H as [-> | [-> | [[-> ->] | ->]]]; cbn; rewrite ?orb_true_r; reflexivity.
Qed.

(** C6.  For every [PatchFunction] instance: if [_patch_implementation]
    raises an [Exception] or a [KeyboardInterrupt] [e], then [_on_exception]
    is run with [e], and whatever [_on_exception] does - return or raise -
    the call raises [e]. *)
Theorem on_exception_cannot_suppress Self (self : PatchFunction Self) original args kws s e s1 :
  _patch_implementation self original args kws s = (Exc e, s1) ->
  isinstance_Exception_or_KeyboardInterrupt e = true ->
  __call__ self original args kws s = (Exc e, snd (_on_exception self e s1)).
Proof.
  intros Hrun Hcls. unfold __call__, try_except. rewrite Hrun, Hcls.
  unfold try_finally, bind, raise, ret.
  destruct (_on_exception self e s1) as [[[]|e'] s2]; reflexivity.
Qed.

Lemma pyval_nested_ind (P : pyval -> Prop) :
  P VNone -> (forall b, P (VBool b)) -> (forall z, P (VInt z)) -> (forall s, P (VStr s)) ->
  (forall items, Forall P items -> P (VList items)) ->
  (forall items, Forall P items -> P (VTuple items)) ->
  (forall items, Forall (fun kv => P (snd kv)) items -> P (VDict items)) ->
  (forall a s, P (VCallable a s)) -> (forall a c, P (VObj a c)) ->
  forall v, P v.
Proof.
  intros HN HB HI HS HL HT HD HC HO.
  fix IH 1. intros v. destruct v as [ | b | z | s | items | items | items | a s | a c].
  - exact HN.
  - apply HB.
  - apply HI.
  - apply HS.
  - apply HL. induction items as [|x xs IHxs]; constructor; [apply IH | exact IHxs].
  - apply HT. induction items as [|x xs IHxs]; constructor; [apply IH | exact IHxs].
  - apply HD. induction items as [|[k x] xs IHxs]; constructor; [apply IH | exact IHxs].
  - apply HC.
  - apply HO.
Qed.

Lemma pytype_eqb_refl t : pytype_eqb t t = true.
Proof.
  destruct t; try reflexivity. cbn. unfold pyclass_eqb.
  rewrite String.eqb_refl. by destruct (cls_meta c).
Qed.

Lemma well_formed_seq (items : list pyval) :
  (fix all (l : list pyval) : Prop :=
     match l with [] => True | x :: l' => well_formed x /\ all l' end) items
  <-> Forall well_formed items.
Proof.
  induction items as [|x xs IH]; cbn.
  - split; [constructor | done].
  - rewrite IH, Forall_cons. tauto.
Qed.

Lemma well_formed_items (items : list (string * pyval)) :
  (fix all (l : list (string * pyval)) : Prop :=
     match l with [] => True | (_, x) :: l' => well_formed x /\ all l' end) items
  <-> Forall (fun kv => well_formed (snd kv)) items.
Proof.
  induction items as [|[k x] xs IH]; cbn.
  - split; [constructor | done].
  - rewrite IH, Forall_cons. tauto.
Qed.

Lemma dict_get_In d key v :
  NoDup (dict_keys d) -> In (key, v) d -> dict_get d key = v.
Proof.
  induction d as [|[k x] d IH]; cbn; [done|].
  intros Hnd [Heq | Hin].
  - inversion Heq; subst. by rewrite String.eqb_refl.
  - apply NoDup_cons in Hnd as [Hk Hnd].
    destruct (String.eqb_spec k key) as [->|Hne].
    + exfalso. apply Hk. apply list_elem_of_In. change key with (fst (key, v)).
      unfold dict_keys. apply in_map. exact Hin.
    + by apply IH.
Qed.

Lemma keys_issubset_refl d : keys_issubset d d = true.
Proof.
  unfold keys_issubset. apply forallb_forall. intros k Hk.
  unfold has_key. apply existsb_exists. exists k. split; [exact Hk | apply String.eqb_refl].
Qed.

Lemma validate_same v : well_formed v -> _validate v v = Val tt.
Proof.
  induction v as [ | b | z | s | items IH | items IH | items IH | a s | a c]
    using pyval_nested_ind; intros Hwf.
  - reflexivity.
  - cbn. by rewrite Bool.eqb_reflx.
  - cbn. by rewrite Z.eqb_refl.
  - cbn. by rewrite String.eqb_refl.
  - cbn [_validate is_None andb negb type pytype_eqb]. cbn [well_formed] in Hwf.
    apply well_formed_seq in Hwf. rewrite Nat.ltb_irrefl.
    induction items as [|x xs IHxs]; [reflexivity|].
    apply Forall_cons in IH as [IHx IH]. apply Forall_cons in Hwf as [Hx Hwf].
    cbn [hd tl]. rewrite (IHx Hx). by apply IHxs.
  - cbn [_validate is_None andb negb type pytype_eqb]. cbn [well_formed] in Hwf.
    apply well_formed_seq in Hwf. rewrite Nat.ltb_irrefl.
    induction items as [|x xs IHxs]; [reflexivity|].
    apply Forall_cons in IH as [IHx IH]. apply Forall_cons in Hwf as [Hx Hwf].
    cbn [hd tl]. rewrite (IHx Hx). by apply IHxs.
  - cbn [_validate is_None andb negb type pytype_eqb]. cbn [well_formed] in Hwf.
    destruct Hwf as [Hnd Hwf]. apply well_formed_items in Hwf.
    rewrite keys_issubset_refl. cbn [negb].
    assert (Hsub : forall kv, In kv items -> In kv items) by auto.
    revert Hsub. generalize items at 1 4 as whole. intros whole Hsub.
    rewrite Forall_forall in IH, Hwf.
    induction whole as [|[k x] xs IHxs]; [reflexivity|].
    assert (Hin : In (k, x) items) by (apply Hsub; left; reflexivity).
    rewrite (dict_get_In items k x Hnd Hin).
    apply list_elem_of_In in Hin.
    pose proof (IH (k, x) Hin (Hwf (k, x) Hin)) as Hx. cbn [snd] in Hx. rewrite Hx.
    apply IHxs. intros kv Hkv. apply Hsub. right. exact Hkv.
  - cbn. by rewrite Nat.eqb_refl.
  - cbn. rewrite Nat.eqb_refl. cbn. unfold pyclass_eqb.
    rewrite String.eqb_refl. by destruct (cls_meta c).
Qed.

(** C9.  For all positional arguments and keyword arguments (dictionaries
    having unique keys): validating the forwarding of exactly what the user
    passed succeeds. *)
Theorem validate_args_reflexive (args : list pyval) (kws : kwargs) :
  well_formed (VTuple args) -> well_formed (VDict kws) ->
  _validate_args args kws args kws = Val tt.
Proof.
  intros Ha Hk. unfold _validate_args.
  rewrite (validate_same (VTuple args) Ha). exact (validate_same (VDict kws) Hk).
Qed.

(** C9, an instance. *)
Lemma validate_args_reflexive_witness :
  _validate_args [VInt 1; VList [VStr "a"; VNone]] [("callbacks", VList [VCallable 7 false])]
                 [VInt 1; VList [VStr "a"; VNone]] [("callbacks", VList [VCallable 7 false])]
  = Val tt.
Proof.
  apply validate_args_reflexive.
  - cbn. tauto.
  - cbn. split; [|tauto]. repeat constructor. intros H. inversion H.
Defined.

(** ** The managed-run wrapper *)

Lemma try_mlflow_log_end_run env s w :
  try_mlflow_log env (mlflow_end_run s) w = (Val (Some tt), ended s w).
Proof.
  unfold try_mlflow_log, try_except, bind, ret, ended, mlflow_end_run.
  destruct (_active_run_stack (tracking w)); reflexivity.
Qed.

Lemma try_mlflow_log_create env integ tags w :
  active_run_in w = None ->
  try_mlflow_log env (create_managed_run integ tags) w
  = (Val (Some (length (runs (tracking w)))), created integ tags w).
Proof.
  intros Hnone.
  unfold try_mlflow_log, try_except, bind, ret, created, create_managed_run, create_managed_run_with, bind,
    mlflow_start_run, emit, modify.
  rewrite Hnone. reflexivity.
Qed.

Lemma created_tracking integ tags w :
  active_run_in w = None ->
  tracking (created integ tags w)
  = mkTracking (runs (tracking w) ++ [mkRun (length (runs (tracking w))) RUNNING tags])
               [length (runs (tracking w))].
Proof.
  intros Hnone. unfold created, create_managed_run, create_managed_run_with, bind, mlflow_start_run, emit, modify.
  rewrite Hnone. cbn. unfold active_run_in in Hnone.
  destruct (_active_run_stack (tracking w)); [reflexivity | discriminate].
Qed.


Lemma patch_with_managed_run_active env integ tags (f : PatchFn) co args kws c :
  active_run_in (world c) <> None ->
  patch_with_managed_run env integ tags f co args kws c = f co args kws c.
Proof.
  intros Hact. unfold patch_with_managed_run, patch_with_managed_run_with, bind, in_world, zoom, mlflow_active_run, read,
    try_except_else, ret, raise.
  destruct (active_run_in (world c)) as [rid|]; [|done]. cbn.
  replace {| locals := locals c; world := world c |} with c by (by destruct c).
  destruct (f co args kws c) as [[v|e] c2]; [reflexivity|].
  by destruct (isinstance_Exception_or_KeyboardInterrupt e).
Qed.

Lemma patch_with_managed_run_fresh env integ tags (f : PatchFn) co args kws c r c2 :
  active_run_in (world c) = None ->
  f co args kws (with_world (created integ tags) c) = (r, c2) ->
  patch_with_managed_run env integ tags f co args kws c
  = (r, match verdict r with Some s => with_world (ended s) c2 | None => c2 end).
Proof.
  intros Hnone Hrun. unfold patch_with_managed_run, patch_with_managed_run_with, bind, in_world, zoom, mlflow_active_run,
    read, try_except_else, ret, raise.
  rewrite Hnone. cbn. fold (create_managed_run integ tags).
  rewrite (try_mlflow_log_create env integ tags _ Hnone).
  change {| locals := locals c; world := created integ tags (world c) |}
    with (with_world (created integ tags) c).
  rewrite Hrun. unfold verdict. destruct r as [v|e]; cbn.
  - rewrite try_mlflow_log_end_run. reflexivity.
  - destruct (isinstance_Exception_or_KeyboardInterrupt e); [|reflexivity].
    cbn. rewrite try_mlflow_log_end_run. reflexivity.
Qed.

Lemma PatchWithManagedRun_active env integ tags Self (cls : PatchFunction Self) co args kws c :
  active_run_in (world c) <> None ->
  call (PatchWithManagedRun env integ tags cls) co args kws c = call cls co args kws c.
Proof.
  intros Hact. unfold call, __call__, PatchWithManagedRun, PatchWithManagedRun_with, try_except, try_finally. cbn.
  unfold super, on_world, on_ctx, in_world.
  unfold bind, zoom, mlflow_active_run, read, get, ret, raise.
  cbn. destruct (active_run_in (world c)) as [rid|]; [|done]. cbn.
  replace {| locals := locals c; world := world c |} with c by (by destruct c).
  destruct (_patch_implementation cls co args kws (__init__ cls, c)) as [[v|e] [s2 c2]]; cbn;
    [reflexivity|].
  destruct (isinstance_Exception_or_KeyboardInterrupt e); [|reflexivity]. cbn.
  destruct (_on_exception cls e (s2, c2)) as [[[]|e'] [s3 c3]]; reflexivity.
Qed.

Lemma PatchWithManagedRun_fresh env integ tags Self (cls : PatchFunction Self)
    co args kws c r s2 c2 :
  active_run_in (world c) = None ->
  _patch_implementation cls co args kws (__init__ cls, with_world (created integ tags) c)
  = (r, (s2, c2)) ->
  call (PatchWithManagedRun env integ tags cls) co args kws c
  = (r, match r with
        | Val _ => with_world (ended FINISHED) c2
        | Exc e =>
            if isinstance_Exception_or_KeyboardInterrupt e
            then snd (snd (_on_exception cls e (s2, with_world (ended FAILED) c2)))
            else c2
        end).
Proof.
  intros Hnone Hrun. unfold call, __call__, PatchWithManagedRun, PatchWithManagedRun_with, try_except, try_finally. cbn.
  unfold super, on_world, on_ctx, in_world.
  unfold bind, zoom, mlflow_active_run, read, get, ret, raise, modify.
  cbn. rewrite Hnone. cbn. fold (create_managed_run integ tags).
  rewrite (try_mlflow_log_create env integ tags _ Hnone). cbn.
  change {| locals := locals c; world := created integ tags (world c) |}
    with (with_world (created integ tags) c).
  rewrite Hrun. cbn. destruct r as [v|e]; cbn.
  - rewrite try_mlflow_log_end_run. reflexivity.
  - destruct (isinstance_Exception_or_KeyboardInterrupt e); [|reflexivity]. cbn.
    rewrite try_mlflow_log_end_run. cbn.
    change {| locals := locals c2; world := ended FAILED (world c2) |}
      with (with_world (ended FAILED) c2).
    destruct (_on_exception cls e (s2, with_world (ended FAILED) c2)) as [[[]|e'] [s3 c3]];
      reflexivity.
Qed.










(** ** What passes through the orchestrator *)

Lemma call_reraises Self (self : PatchFunction Self) original args kws s e s1 :
  _patch_implementation self original args kws s = (Exc e, s1) ->
  isinstance_Exception_or_KeyboardInterrupt e = true ->
  __call__ self original args kws s = (Exc e, snd (_on_exception self e s1)).
Proof.
  intros Hrun Hcls. unfold __call__, try_except. rewrite Hrun, Hcls.
  unfold try_finally, bind, raise, ret.
  destruct (_on_exception self e s1) as [[[]|e'] s2]; reflexivity.
Qed.

Lemma non_exception_passes env integ dest fn original pf args kws w e c2 :
  short_circuit env integ w = false ->
  invoke_patch pf (call_original env dest fn original (session_of w) args kws) args kws
    (entry env integ dest fn args kws w) = (Exc e, c2) ->
  isinstance_Exception e = false ->
  safe_patch_function env integ dest fn original pf args kws (enter w) = (Exc e, leave w c2).
Proof.
  intros Hskip Hrun Hcls. rewrite (unfold_instrumented _ _ _ _ _ _ _ _ _ Hskip). cbn zeta.
  rewrite Hrun, Hcls. reflexivity.
Qed.

(** C10.  A [KeyboardInterrupt] [k] coming out of the patch implementation
    is not handled by the guarded function: the guarded call raises [k], and
    on its way out it only ends the session it created and restores the
    diagnostics - the session objects and the history of state assignments
    are as the patch left them.  The managed-run wrapper, as a function and
    as a class, ends its run with FAILED before [k] goes on, and
    [PatchFunction.__call__] runs [_on_exception] before [k] goes on. *)
Theorem keyboard_interrupt_passes env integ dest fn original args kws w k :
  isinstance_KeyboardInterrupt k = true ->
  (forall (pf : patch_impl) c2,
     short_circuit env integ w = false ->
     invoke_patch pf (call_original env dest fn original (session_of w) args kws) args kws
       (entry env integ dest fn args kws w) = (Exc k, c2) ->
     safe_patch_function env integ dest fn original pf args kws (enter w) = (Exc k, leave w c2)
     /\ sessions (manager (world (leave w c2))) = sessions (manager (world c2))
     /\ state_writes (manager (world (leave w c2))) = state_writes (manager (world c2)))
  /\ (forall tags (f : PatchFn) co c c2,
     active_run_in (world c) = None ->
     f co args kws (with_world (created integ tags) c) = (Exc k, c2) ->
     patch_with_managed_run env integ tags f co args kws c
     = (Exc k, with_world (ended FAILED) c2))
  /\ (forall tags Self (cls : PatchFunction Self) co c s2 c2,
     active_run_in (world c) = None ->
     _patch_implementation cls co args kws (__init__ cls, with_world (created integ tags) c)
     = (Exc k, (s2, c2)) ->
     call (PatchWithManagedRun env integ tags cls) co args kws c
     = (Exc k, snd (snd (_on_exception cls k (s2, with_world (ended FAILED) c2)))))
  /\ (forall Self (self : PatchFunction Self) co s s1,
     _patch_implementation self co args kws s = (Exc k, s1) ->
     __call__ self co args kws s = (Exc k, snd (_on_exception self k s1))).
Proof.
  intros Hk.
  assert (Hne : isinstance_Exception k = false).
  { unfold isinstance_KeyboardInterrupt in Hk. unfold isinstance_Exception.
    destruct (exn_cls k); done. }
  assert (Hc : isinstance_Exception_or_KeyboardInterrupt k = true).
  { unfold isinstance_Exception_or_KeyboardInterrupt. rewrite Hk. apply orb_true_r. }
  split; [|split; [|split]].
  - intros pf c2 Hskip Hrun. split.
    + exact (non_exception_passes _ _ _ _ _ _ _ _ _ _ _ Hskip Hrun Hne).
    + unfold leave. cbn. destruct (truthy (_session (manager w))); done.
  - intros tags f co c c2 Hnone Hrun.
    rewrite (patch_with_managed_run_fresh env integ tags f co args kws c _ c2 Hnone Hrun).
    unfold verdict. rewrite Hc. reflexivity.
  - intros tags Self cls co c s2 c2 Hnone Hrun.
    rewrite (PatchWithManagedRun_fresh env integ tags Self cls co args kws c _ s2 c2 Hnone Hrun).
    rewrite Hc. reflexivity.
  - intros Self self co s s1 Hrun. exact (call_reraises Self self co args kws s k s1 Hrun Hc).
Qed.

(** ** Patches that do not use the original function *)


Lemma invoke_shape env integ ps manage_run co args kws c :
  exists c0 c2,
    locals c0 = locals c
    /\ exec (body_of ps args kws) co c0
       = (fst (invoke_patch (managed env integ (implement ps) manage_run) co args kws c), c2)
    /\ locals (snd (invoke_patch (managed env integ (implement ps) manage_run) co args kws c))
       = locals c2.
Proof.
  set (tags := [(MLFLOW_AUTOLOGGING, integ)]).
  destruct ps as [body | body hook], manage_run;
    cbn [managed implement with_managed_run invoke_patch body_of].
  - destruct (active_run_in (world c)) as [rid|] eqn:Hact.
    + rewrite patch_with_managed_run_active by (rewrite Hact; done).
      exists c. destruct (exec (body args kws) co c) as [r c2]. by exists c2.
    + exists (with_world (created integ tags) c).
      destruct (exec (body args kws) co (with_world (created integ tags) c)) as [r c2] eqn:Hrun.
      exists c2.
      rewrite (patch_with_managed_run_fresh _ _ _ _ _ _ _ _ r c2 Hact Hrun). cbn [fst snd].
      repeat split. by destruct (verdict r).
  - exists c. destruct (exec (body args kws) co c) as [r c2]. by exists c2.
  - set (cls := mkPatchFunction tt
                  (fun original args kws => on_ctx (exec (body args kws) original))
                  (fun e => on_world (hook e))).
    destruct (active_run_in (world c)) as [rid|] eqn:Hact.
    + rewrite PatchWithManagedRun_active by (rewrite Hact; done).
      exists c. unfold call, __call__, try_except, try_finally, bind, ret, raise. cbn.
      plumbing. cbn.
      destruct (exec (body args kws) co c) as [[v|e] c2]; cbn; [by exists c2|].
      destruct (isinstance_Exception_or_KeyboardInterrupt e); cbn; [|by exists c2].
      exists c2. by destruct (hook e (world c2)) as [[[]|e'] w3].
    + exists (with_world (created integ tags) c).
      destruct (exec (body args kws) co (with_world (created integ tags) c)) as [r c2] eqn:Hrun.
      exists c2.
      assert (Himpl : _patch_implementation cls co args kws
                        (__init__ cls, with_world (created integ tags) c) = (r, (tt, c2))).
      { cbn. unfold on_ctx, zoom. cbn. rewrite Hrun. reflexivity. }
      rewrite (PatchWithManagedRun_fresh _ _ _ _ cls _ _ _ _ r tt c2 Hact Himpl). cbn [fst snd].
      repeat split. destruct r as [v|e]; [reflexivity|].
      destruct (isinstance_Exception_or_KeyboardInterrupt e); [|reflexivity].
      cbn. plumbing. cbn.
      by destruct (hook e (ended FAILED (world c2))) as [r' w3].
  - exists c. unfold call, __call__, try_except, try_finally, bind, ret, raise. cbn.
    plumbing. cbn.
    destruct (exec (body args kws) co c) as [[v|e] c2]; cbn; [by exists c2|].
    destruct (isinstance_Exception_or_KeyboardInterrupt e); cbn; [|by exists c2].
    exists c2. by destruct (hook e (world c2)) as [[[]|e'] w3].
Qed.



(** ** Failures of the original function *)

Lemma call_original_inv env dest fn original session args kws a kw c r c' :
  Forall returned (og_calls (locals c)) ->
  call_original env dest fn original session args kws a kw c = (r, c') ->
  failure_surfaces r (locals c').
Proof.
  intros Hall. unfold call_original, log, try_log_autologging_event, log_event, emit,
    invoke_original, set_non_mlflow_warnings_behavior_for_current_thread, install_thread.
  unfold in_world. unfold try_except, bind, zoom, modify, set_local, get_locals, read, ret,
    raise, of_res, mlflow_active_run.
  cbn.
  destruct (is_testing env); cbn.
  - destruct (_validate_args args kws a kw) as [[]|ae] eqn:Hv; cbn.
    + destruct (original a kw _) as [[v|e] w']; cbn.
      * intros [= <- <-]. left. cbn. apply Forall_app. split; [exact Hall|].
        repeat constructor. by exists v.
      * destruct (isinstance_Exception e) eqn:He; cbn; intros [= <- <-]; right;
          exists (og_calls (locals c)), a, kw, e; cbn; repeat split; try done.
        rewrite He. done.
    + destruct (isinstance_Exception ae); cbn; intros [= <- <-]; left; exact Hall.
  - destruct (original a kw _) as [[v|e] w']; cbn.
    + intros [= <- <-]. left. cbn. apply Forall_app. split; [exact Hall|].
      repeat constructor. by exists v.
    + destruct (isinstance_Exception e) eqn:He; cbn; intros [= <- <-]; right;
        exists (og_calls (locals c)), a, kw, e; cbn; repeat split; try done.
      rewrite He. done.
Qed.

Lemma exec_inv (co : Closure) :
  (forall a kw c r c', Forall returned (og_calls (locals c)) ->
                       co a kw c = (r, c') -> failure_surfaces r (locals c')) ->
  forall p, propagating p ->
  forall c r c', Forall returned (og_calls (locals c)) ->
                 exec p co c = (r, c') -> failure_surfaces r (locals c').
Proof.
  intros Hco p. induction p as [v | e | a kw k IH | action k IH]; intros Hp c r c' Hall Hrun.
  - cbn in Hrun. injection Hrun as <- <-. by left.
  - cbn in Hrun. injection Hrun as <- <-. by left.
  - cbn in Hrun, Hp. destruct Hp as [Hraise Hk].
    destruct (co a kw c) as [r1 c1] eqn:Hcall.
    destruct (Hco a kw c r1 c1 Hall Hcall) as [Hall1 | (t & a' & kw' & E & Hlog & Ht & -> & Hflag)].
    + exact (IH r1 (Hk r1) c1 r c' Hall1 Hrun).
    + rewrite Hraise in Hrun. cbn in Hrun. injection Hrun as <- <-.
      right. by exists t, a', kw', E.
  - cbn in Hrun, Hp. unfold in_world, zoom in Hrun.
    destruct (action (world c)) as [r1 w1].
    exact (IH r1 (Hp r1) (mkCtx (locals c) w1) r c' Hall Hrun).
Qed.

Lemma invoke_inv env integ dest fn original session ps manage_run args kws c :
  lets_failures_through ps ->
  Forall returned (og_calls (locals c)) ->
  let run := invoke_patch (managed env integ (implement ps) manage_run)
               (call_original env dest fn original session args kws) args kws c in
  failure_surfaces (fst run) (locals (snd run)).
Proof.
  intros Hps Hall run. subst run.
  destruct (invoke_shape env integ ps manage_run
              (call_original env dest fn original session args kws) args kws c)
    as (c0 & c2 & H0 & Hrun & Hl).
  rewrite Hl. eapply exec_inv; [| apply Hps | | exact Hrun].
  - intros a kw c1 r c1'. apply call_original_inv.
  - by rewrite H0.
Qed.

Lemma check_runs_id env integ c : snd (check_runs env integ c) = c.
Proof.
  unfold check_runs, _validate_autologging_run, get_run, assert_.
  unfold in_world. unfold bind, zoom, get_locals, read, mlflow_active_run, ret, raise.
  cbn. destruct c as [f w]. cbn.
  destruct (is_testing env); [|reflexivity].
  destruct (preexisting_run_for_testing f) as [pre|]; [|reflexivity].
  destruct (truthy pre); cbn; [reflexivity|].
  destruct (truthy (active_run_in w)); cbn; [reflexivity|].
  destruct (patch_function_run_for_testing f) as [rid|]; [|reflexivity]. cbn.
  destruct (runs (tracking w) !! rid) as [run|]; cbn; [|reflexivity].
  repeat (match goal with |- context [if ?b then _ else _] => destruct b end; cbn);
    reflexivity.
Qed.

Lemma not_returned_raised a kw E : ~ returned (a, kw, Exc E).
Proof. intros [v Hv]. discriminate. Qed.

Lemma failure_found r f a kw E :
  failure_surfaces r f -> In (a, kw, Exc E) (og_calls f) -> r = Exc E.
Proof.
  intros [Hall | (t & a' & kw' & E' & Hlog & Ht & -> & _)] Hin.
  - rewrite Forall_forall in Hall. apply list_elem_of_In in Hin.
    destruct (not_returned_raised a kw E (Hall _ Hin)).
  - rewrite Hlog in Hin. apply in_app_or in Hin as [Hin | [Heq | []]].
    + rewrite Forall_forall in Ht. apply list_elem_of_In in Hin.
      destruct (not_returned_raised a kw E (Ht _ Hin)).
    + by injection Heq as _ _ ->.
Qed.

Lemma result_or_fallback_found original args kws c a kw E :
  Forall returned (og_calls (locals c)) ->
  In (a, kw, Exc E) (og_calls (locals (snd (result_or_fallback original args kws c)))) ->
  fst (result_or_fallback original args kws c) = Exc E.
Proof.
  intros Hall. unfold result_or_fallback, invoke_original.
  unfold in_world. unfold bind, zoom, get_locals, read, ret. cbn.
  destruct (original_has_been_called (locals c)); cbn.
  - intros Hin. rewrite Forall_forall in Hall. apply list_elem_of_In in Hin.
    destruct (not_returned_raised a kw E (Hall _ Hin)).
  - destruct (original args kws (world c)) as [r w']. cbn.
    intros Hin. apply in_app_or in Hin as [Hin | [Heq | []]].
    + rewrite Forall_forall in Hall. apply list_elem_of_In in Hin.
      destruct (not_returned_raised a kw E (Hall _ Hin)).
    + by injection Heq as _ _ ->.
Qed.

Lemma epilogue_found env integ original args kws c a kw E :
  Forall returned (og_calls (locals c)) ->
  let out := (check_runs env integ ;; result_or_fallback original args kws) c in
  In (a, kw, Exc E) (og_calls (locals (snd out))) -> fst out = Exc E.
Proof.
  intros Hall out. subst out. unfold bind.
  pose proof (check_runs_id env integ c) as Hid.
  destruct (check_runs env integ c) as [[[]|e] c1]; cbn in Hid; subst c1.
  - by apply result_or_fallback_found.
  - cbn. intros Hin. rewrite Forall_forall in Hall. apply list_elem_of_In in Hin.
    destruct (not_returned_raised a kw E (Hall _ Hin)).
Qed.

Lemma on_patch_exception_shape env integ dest fn session args kws e c :
  exists w',
    on_patch_exception env integ dest fn session args kws e c
    = (if failed_during_original (locals c) || is_testing env then Exc e else Val tt,
       mkCtx (locals c) w')
    /\ manager w'
       = mkManager (_session (manager (world c)))
           (alter (fun o => mkSession (integration o) (id_ o) failed) session
              (sessions (manager (world c))))
           (state_writes (manager (world c)) ++ [(session, failed)]).
Proof.
  unfold on_patch_exception, log, try_log_autologging_event, log_event, emit.
  unfold in_world. unfold bind, zoom, set_state, modify, get_locals, read, try_except, raise, ret.
  cbn. destruct (failed_during_original (locals c) || is_testing env); eexists; split;
    reflexivity.
Qed.

(** A patch that lets the exceptions of the original function through in
    the literal sense ends, in every run, with what an invocation of the
    original function raised. *)
Lemma propagating_lets_through env integ dest fn original session ps manage_run args kws c :
  lets_failures_through ps ->
  Forall returned (og_calls (locals c)) ->
  let patched := invoke_patch (managed env integ (implement ps) manage_run)
                   (call_original env dest fn original session args kws) args kws c in
  forall a kw E, In (a, kw, Exc E) (og_calls (locals (snd patched))) -> fst patched = Exc E.
Proof.
  intros Hps Hall patched a kw E Hin. subst patched.
  exact (failure_found _ _ _ _ _
           (invoke_inv env integ dest fn original session ps manage_run args kws c Hps Hall)
           Hin).
Qed.

(** ** Assignments of the session state *)

Lemma result_or_fallback_manager original args kws c :
  (forall a kw w0, manager (snd (original a kw w0)) = manager w0) ->
  manager (world (snd (result_or_fallback original args kws c))) = manager (world c).
Proof.
  intros Horig. unfold result_or_fallback, invoke_original.
  unfold in_world. unfold bind, zoom, get_locals, read, ret. cbn.
  destruct (original_has_been_called (locals c)); cbn; [reflexivity|].
  pose proof (Horig args kws (world c)) as H.
  destruct (original args kws (world c)) as [r w']. exact H.
Qed.

Lemma epilogue_manager env integ original args kws c :
  (forall a kw w0, manager (snd (original a kw w0)) = manager w0) ->
  manager (world (snd ((check_runs env integ ;; result_or_fallback original args kws) c)))
  = manager (world c).
Proof.
  intros Horig. unfold bind.
  pose proof (check_runs_id env integ c) as Hid.
  destruct (check_runs env integ c) as [[[]|e] c1]; cbn in Hid; subst c1; [|reflexivity].
  by apply result_or_fallback_manager.
Qed.

Lemma alter_last {A} (f : A -> A) (l : list A) (x : A) :
  alter f (length l) (l ++ [x])%list = (l ++ [f x])%list.
Proof. induction l as [|y l IH]; cbn; [reflexivity|]. by rewrite IH. Qed.

(** The plain case.  A guarded call that runs its patch implementation,
    where neither the patch code nor the original function touches the
    session manager itself (no nested guarded call), assigns the state of
    the session it runs in exactly once - succeeded when the patch returns,
    failed when it raises an [Exception] - and not at all when something
    outside [Exception] passes through; it does so whether it created the
    session or shares the ambient one; a session it created was running
    before and is cleared from the manager on the way out, an ambient one
    stays in place. *)
Lemma undisturbed_call_assigns_state_once env integ dest fn original pf args kws w rp c2 :
  short_circuit env integ w = false ->
  invoke_patch pf (call_original env dest fn original (session_of w) args kws) args kws
    (entry env integ dest fn args kws w) = (rp, c2) ->
  manager (world c2) = manager (world (entry env integ dest fn args kws w)) ->
  (forall a kw w0, manager (snd (original a kw w0)) = manager w0) ->
  let m' := manager (world (snd (safe_patch_function env integ dest fn original pf args kws
                                   (enter w)))) in
  let assigned := match rp with
                  | Val _ => Some succeeded
                  | Exc e => if isinstance_Exception e then Some failed else None
                  end in
  state_writes m'
    = (state_writes (manager w)
       ++ match assigned with Some st => [(session_of w, st)] | None => [] end)%list
  /\ _session m' = _session (manager w)
  /\ (_session (manager w) = None ->
      sessions m'
      = (sessions (manager w)
         ++ [mkSession integ (session_of w) (default running assigned)])%list)
  /\ (forall session, _session (manager w) = Some session ->
      sessions m'
      = match assigned with
        | Some st => alter (fun o => mkSession (integration o) (id_ o) st) session
                       (sessions (manager w))
        | None => sessions (manager w)
        end).
Proof.
  intros Hskip Hrun Hquiet Horig m' assigned. subst m' assigned.
  rewrite (unfold_instrumented _ _ _ _ _ _ _ _ _ Hskip). cbn zeta. rewrite Hrun.
  assert (Hm2 : manager (world c2) = open_session integ (manager w)) by (rewrite Hquiet; done).
  destruct rp as [v|e]; [|destruct (isinstance_Exception e) eqn:He].
  - unfold leaving, leave. cbn [fst snd world manager].
    change ((in_world (set_state (session_of w) succeeded);;
             log dest fn patch_function_success (session_of w) args kws None;;
             check_runs env integ;; result_or_fallback original args kws) c2)
      with ((check_runs env integ;; result_or_fallback original args kws)
              (snd ((in_world (set_state (session_of w) succeeded);;
                     log dest fn patch_function_success (session_of w) args kws None) c2))).
    rewrite (epilogue_manager env integ original args kws _ Horig).
    cbn. rewrite Hm2. unfold open_session, session_of.
    destruct (_session (manager w)) as [s|] eqn:Hs; cbn.
    + repeat split; try done. intros s' [= <-]. reflexivity.
    + rewrite alter_last. repeat split; done.
  - unfold leaving, leave. cbn [fst snd world manager].
    destruct (on_patch_exception_shape env integ dest fn (session_of w) args kws e c2)
      as [w' [Hh Hm']].
    assert (Hfinal : manager (world (snd ((on_patch_exception env integ dest fn (session_of w)
                                              args kws e;;
                                            check_runs env integ;;
                                            result_or_fallback original args kws) c2)))
                     = manager w').
    { destruct (failed_during_original (locals c2) || is_testing env).
      - rewrite (bind_exc _ _ _ _ _ Hh). reflexivity.
      - rewrite (bind_val _ _ _ _ _ Hh).
        exact (epilogue_manager env integ original args kws _ Horig). }
    rewrite Hfinal, Hm', Hm2. unfold open_session, session_of.
    destruct (_session (manager w)) as [s|] eqn:Hs; cbn.
    + repeat split; try done. intros s' [= <-]. reflexivity.
    + rewrite alter_last. repeat split; done.
  - unfold leave. cbn. rewrite Hm2. unfold open_session, session_of.
    destruct (_session (manager w)) as [s|] eqn:Hs; cbn.
    + rewrite app_nil_r. repeat split; try done; intros s' [= <-]; reflexivity.
    + rewrite app_nil_r. repeat split; done.
Qed.

(** ** Concrete runs *)

(** C1 as stated fails: the original function raised [boom] during the
    guarded call, the patch caught it, and the guarded call returned, in
    production mode and in test mode. *)
Lemma original_failure_swallowed :
  In ([VInt 5], [], Exc boom) (og_calls (locals (snd (scenario_swallow false))))
  /\ fst (scenario_swallow false) <> Exc boom
  /\ In ([VInt 5], [], Exc boom) (og_calls (locals (snd (scenario_swallow true))))
  /\ fst (scenario_swallow true) <> Exc boom.
Proof. vm_compute. repeat split; auto; discriminate. Qed.


(** C3, as amended.  For the patch implementation
    [f(original, x) = original(x) + 1] and the original function
    [x -> x * 2], the guarded call with argument 5 returns 10, the result of
    the original function (what the patch returns is not kept), and the
    original function is invoked exactly once. *)
Theorem scenario_a_returns_original_result (testing : bool) :
  fst (scenario_a testing) = Val (VInt 10)
  /\ og_calls (locals (snd (scenario_a testing))) = [([VInt 5], [], Val (VInt 10))]
  /\ journal (sinks (world (snd (scenario_a testing)))) = [VStr "original ran"].
Proof. destruct testing; vm_compute; repeat split. Qed.

(** C3 as stated fails: the guarded call does not return 11. *)
Lemma scenario_a_does_not_return_11 :
  fst (scenario_a false) <> Val (VInt 11) /\ fst (scenario_a true) <> Val (VInt 11).
Proof. vm_compute. split; discriminate. Qed.

(** C4 as stated fails: in one call chain with one session, the nested
    guarded call set the session to succeeded (the outer patch saw that
    state right after the nested call) and the outer call then set it to
    failed: two assignments, the second one not from running. *)
Lemma nested_call_assigns_state_too :
  state_writes (manager (world (snd scenario_nested))) = [(0, succeeded); (0, failed)]
  /\ length (sessions (manager (world (snd scenario_nested)))) = 1
  /\ journal (sinks (world (snd scenario_nested)))
     = [VStr "original ran"; VStr "succeeded"; VStr "original ran"].
Proof. vm_compute. repeat split. Qed.



(** C6, an instance: the cleanup hook raises as well. *)
Lemma on_exception_cannot_suppress_witness :
  __call__ failing_hook_class unused_original [] [] (tt, enter fresh_world)
  = (Exc bad, (tt, enter fresh_world)).
Proof.
  exact (on_exception_cannot_suppress unit failing_hook_class unused_original [] []
           (tt, enter fresh_world) bad (tt, enter fresh_world) eq_refl eq_refl).
Defined.

(** C7, an instance: an integration that is not configured. *)
Lemma short_circuit_calls_original_witness :
  safe_patch unconfigured "sklearn" "Model" "fit" double (implement plus_one_patch) true
    [VInt 5] [] (enter fresh_world)
  = (Val (VInt 10),
     mkCtx (mkFrame None false VNone false None [([VInt 5], [], Val (VInt 10))])
           (mkWorld (mkManager None [] []) (mkTracking [] []) no_diagnostics
                    (mkSinks [] [] [VStr "original ran"]))).
Proof.
  destruct (short_circuit_calls_original unconfigured "sklearn" "Model" "fit" double
              (implement plus_one_patch) true [VInt 5] [] fresh_world (or_intror (or_introl eq_refl))) as (_ & _ & H).
  exact H.
Defined.

Lemma revert_patches_unrecorded name p :
  _AUTOLOGGING_PATCHES p !! name = None -> revert_patches name p = p.
Proof.
  intros Hnone. unfold revert_patches. rewrite Hnone. cbn.
  rewrite delete_id by exact Hnone. by destruct p.
Qed.

(** C8, at the failing input.  One integration has patched [Model.fit] and
    recorded the patch; [revert_patches] called with the name of the fluent
    API leaves the process as it is - the attribute stays patched, the patch
    stays recorded - whereas called with the name of the integration it
    restores the original and forgets the patch. *)
Theorem revert_patches_fluent_name_reverts_nothing :
  elements <$> (_AUTOLOGGING_PATCHES one_integration !! "sklearn") = Some [sklearn_fit]
  /\ attributes one_integration !! ("sklearn.Model", "fit") = Some 101
  /\ gorilla_get_original_attribute "sklearn.Model" "fit" one_integration = Some 100
  /\ revert_patches FLUENT_API_NAME one_integration = one_integration
  /\ attributes (revert_patches "sklearn" one_integration) !! ("sklearn.Model", "fit")
     = Some 100
  /\ _AUTOLOGGING_PATCHES (revert_patches "sklearn" one_integration) !! "sklearn" = None.
Proof.
  split; [vm_compute; reflexivity|]. split; [vm_compute; reflexivity|].
  split; [vm_compute; reflexivity|].
  split; [apply revert_patches_unrecorded; vm_compute; reflexivity|].
  split; [vm_compute; reflexivity|]. vm_compute; reflexivity.
Qed.

Lemma revert_patches_forgets name p :
  _AUTOLOGGING_PATCHES (revert_patches name p) !! name = None.
Proof. unfold revert_patches. cbn. apply lookup_delete_eq. Qed.

(** C10, an instance: a patch interrupted before it calls the original. *)
Lemma keyboard_interrupt_passes_witness :
  safe_patch_function (env_of "sklearn" false) "sklearn" "Model" "fit" double
    (implement interrupted_patch) [VInt 5] [] (enter fresh_world)
  = (Exc ctrl_c,
     leave fresh_world
       (entry (env_of "sklearn" false) "sklearn" "Model" "fit" [VInt 5] [] fresh_world)).
Proof.
  destruct (keyboard_interrupt_passes (env_of "sklearn" false) "sklearn" "Model" "fit" double
              [VInt 5] [] fresh_world ctrl_c eq_refl) as [Ha _].
  destruct (Ha (implement interrupted_patch) _ eq_refl eq_refl) as [H _]. exact H.
Defined.

(** Scenario B in test mode: the failure of the patch reaches the caller and
    the original function is not invoked. *)
Example scenario_b_in_test_mode :
  let run := safe_patch (env_of "sklearn" true) "sklearn" "Model" "fit" double
               (implement raising_patch) false [VInt 5] [] (enter fresh_world) in
  fst run = Exc bad /\ og_calls (locals (snd run)) = [].
Proof. vm_compute. split; reflexivity. Qed.

(** Scenario D: with a managed run and no active run, a patch that raises
    leaves exactly one run, in status FAILED, and none active. *)
Example scenario_d :
  let run := safe_patch (env_of "sklearn" false) "sklearn" "Model" "fit" double
               (implement raising_patch) true [VInt 5] [] (enter fresh_world) in
  fst run = Val (VInt 10)
  /\ tracking (world (snd run))
     = mkTracking [mkRun 0 FAILED [(MLFLOW_AUTOLOGGING, "sklearn")]] [].
Proof. vm_compute. split; reflexivity. Qed.

(** * Further properties of the code *)

(** ** More on the argument-forwarding validator *)

Lemma validate_tuple la lu :
  _validate (VTuple la) (VTuple lu)
  = if (length la <? length lu)%nat
    then assertion_failure
           "expected inputs are missing from the call to the original function."
    else validate_zip la lu.
Proof. reflexivity. Qed.

Lemma validate_list la lu :
  _validate (VList la) (VList lu)
  = if (length la <? length lu)%nat
    then assertion_failure
           "expected inputs are missing from the call to the original function."
    else validate_zip la lu.
Proof. reflexivity. Qed.

Lemma validate_dict da du :
  _validate (VDict da) (VDict du)
  = if negb (keys_issubset du da)
    then assertion_failure
           "Keyword or dictionary arguments to original function omit one or more expected keys"
    else validate_items da du.
Proof.
  cbn [_validate is_None andb negb type pytype_eqb].
  destruct (negb (keys_issubset du da)); [reflexivity|].
  induction da as [|[key a] da IH]; [reflexivity|].
  cbn [validate_items]. destruct (_validate a (dict_get du key)); [exact IH | reflexivity].
Qed.

Lemma validate_absent v : _validate v VNone = validate_added v.
Proof. unfold validate_added. destruct v; reflexivity. Qed.

Lemma validate_zip_prefix l rest ur :
  Forall well_formed l -> validate_zip (l ++ rest)%list (l ++ ur)%list = validate_zip rest ur.
Proof.
  induction l as [|x l IH]; intros Hwf; [reflexivity|].
  apply Forall_cons in Hwf as [Hx Hwf]. cbn. rewrite (validate_same x Hx). by apply IH.
Qed.

Lemma validate_items_app l1 l2 du :
  validate_items (l1 ++ l2)%list du
  = match validate_items l1 du with
    | Val _ => validate_items l2 du
    | Exc e => Exc e
    end.
Proof.
  induction l1 as [|[k a] l1 IH]; [reflexivity|]. cbn.
  destruct (_validate a (dict_get du k)); [exact IH | reflexivity].
Qed.

Lemma validate_items_same d : well_formed (VDict d) -> validate_items d d = Val tt.
Proof.
  intros Hwf. pose proof (validate_same (VDict d) Hwf) as H.
  rewrite validate_dict, keys_issubset_refl in H. exact H.
Qed.

Lemma dict_get_absent d key : ~ In key (dict_keys d) -> dict_get d key = VNone.
Proof.
  induction d as [|[k x] d IH]; [reflexivity|]. cbn. intros Hnot.
  destruct (String.eqb_spec k key) as [->|Hne]; [exfalso; apply Hnot; by left|].
  apply IH. intros Hin. apply Hnot. by right.
Qed.

Lemma has_key_In d key : has_key d key = true <-> In key (dict_keys d).
Proof.
  unfold has_key. rewrite existsb_exists. split.
  - intros (k & Hk & Heq). apply String.eqb_eq in Heq. by subst.
  - intros Hin. exists key. split; [exact Hin | apply String.eqb_refl].
Qed.

Lemma keys_issubset_app (d extra : kwargs) : keys_issubset d (d ++ extra)%list = true.
Proof.
  unfold keys_issubset. apply forallb_forall. intros k Hk. apply has_key_In.
  unfold dict_keys. rewrite map_app. apply in_or_app. by left.
Qed.

(** X1.  An argument the patch appends to the user's positional arguments is
    checked as a new input, and nothing else is: the validation of
    [args + (extra,)] against [args] gives what the check of [extra] gives
    ([None] passes as it is). *)
Theorem appended_argument_is_checked_as_new (args : list pyval) (kws : kwargs) (extra : pyval) :
  well_formed (VTuple args) -> well_formed (VDict kws) ->
  _validate_args args kws (args ++ [extra])%list kws = validate_added extra.
Proof.
  intros Ha Hk. unfold _validate_args. rewrite validate_tuple.
  replace (length (args ++ [extra]) <? length args)%nat with false
    by (symmetry; apply Nat.ltb_ge; rewrite length_app; lia).
  cbn [well_formed] in Ha. apply well_formed_seq in Ha.
  rewrite <- (app_nil_r args) at 2. rewrite (validate_zip_prefix args [extra] [] Ha).
  cbn. rewrite validate_absent.
  destruct (validate_added extra) as [[]|e]; [|reflexivity].
  exact (validate_same (VDict kws) Hk).
Qed.

Lemma appended_argument_is_checked_as_new_witness :
  _validate_args [VInt 1] [("epochs", VInt 3)] ([VInt 1] ++ [VCallable 7 false])%list
                 [("epochs", VInt 3)]
  = validate_added (VCallable 7 false).
Proof.
  apply appended_argument_is_checked_as_new.
  - cbn. tauto.
  - cbn. split; [|tauto]. repeat constructor. intros H. inversion H.
Defined.

(** X2.  A keyword argument the patch adds under a key the user did not use
    is checked as a new input, and nothing else is. *)
Theorem added_keyword_is_checked_as_new (args : list pyval) (kws : kwargs)
    (key : string) (v : pyval) :
  well_formed (VTuple args) -> well_formed (VDict kws) -> ~ In key (dict_keys kws) ->
  _validate_args args kws args (kws ++ [(key, v)])%list = validate_added v.
Proof.
  intros Ha Hk Hnew. unfold _validate_args. rewrite (validate_same (VTuple args) Ha).
  rewrite validate_dict, keys_issubset_app. cbn [negb].
  rewrite validate_items_app, (validate_items_same kws Hk). cbn.
  rewrite (dict_get_absent kws key Hnew), validate_absent.
  by destruct (validate_added v) as [[]|e].
Qed.

Lemma added_keyword_is_checked_as_new_witness :
  _validate_args [VInt 1] [("epochs", VInt 3)] [VInt 1]
                 ([("epochs", VInt 3)] ++ [("callbacks", VList [VCallable 7 true])])%list
  = validate_added (VList [VCallable 7 true]).
Proof.
  apply added_keyword_is_checked_as_new.
  - cbn. tauto.
  - cbn. split; [|tauto]. repeat constructor. intros H. inversion H.
  - cbn. intros [H|[]]. discriminate.
Defined.

(** X3.  A call of the original function with fewer positional arguments
    than the user passed fails the validation, whatever the arguments
    are. *)
Theorem dropped_positional_argument_fails (args og_args : list pyval) (kws og_kws : kwargs) :
  (length og_args < length args)%nat ->
  exists msg, _validate_args args kws og_args og_kws = Exc (Exn AssertionError msg).
Proof.
  intros Hlen. unfold _validate_args. rewrite validate_tuple.
  apply Nat.ltb_lt in Hlen. rewrite Hlen. by eexists.
Qed.

Lemma dropped_positional_argument_fails_witness :
  exists msg, _validate_args [VInt 1; VInt 2] [] [VInt 1] [] = Exc (Exn AssertionError msg).
Proof. apply dropped_positional_argument_fails. cbn. lia. Defined.

(** X4.  A call of the original function that forwards the positional
    arguments but leaves out one of the user's keyword arguments fails the
    validation. *)
Theorem dropped_keyword_argument_fails (args : list pyval) (kws og_kws : kwargs)
    (key : string) :
  well_formed (VTuple args) -> In key (dict_keys kws) -> ~ In key (dict_keys og_kws) ->
  exists msg, _validate_args args kws args og_kws = Exc (Exn AssertionError msg).
Proof.
  intros Ha Hin Hout. unfold _validate_args. rewrite (validate_same (VTuple args) Ha).
  rewrite validate_dict.
  assert (Hsub : keys_issubset kws og_kws = false).
  { unfold keys_issubset. apply not_true_is_false. intros Hall.
    rewrite forallb_forall in Hall. apply Hout, has_key_In, Hall, Hin. }
  rewrite Hsub. by eexists.
Qed.

Lemma dropped_keyword_argument_fails_witness :
  exists msg,
    _validate_args [VInt 1] [("epochs", VInt 3)] [VInt 1] [] = Exc (Exn AssertionError msg).
Proof.
  apply (dropped_keyword_argument_fails [VInt 1] [("epochs", VInt 3)] [] "epochs").
  - cbn. tauto.
  - cbn. by left.
  - cbn. tauto.
Defined.

(** X5.  A new list argument is accepted exactly when each of its elements
    is accepted as a new input. *)
Theorem new_list_accepted_iff_elements (items : list pyval) :
  _validate_new_input (VList items) = Val tt
  <-> Forall (fun v => _validate_new_input v = Val tt) items.
Proof.
  cbn [_validate_new_input]. induction items as [|x l IH].
  - split; [constructor | reflexivity].
  - rewrite Forall_cons. destruct (_validate_new_input x) as [[]|e] eqn:Hx.
    + rewrite IH. tauto.
    + split; [discriminate | intros [H _]; discriminate].
Qed.

Lemma scalar_unchanged a u : scalar u -> _validate a u = Val tt -> a = u.
Proof.
  destruct u as [ | b | z | s | | | | | ]; try contradiction; intros _;
    destruct a as [ | b' | z' | s' | la | la | da | ad sf | ad c]; cbn; try discriminate.
  - destruct (Bool.eqb b' b) eqn:H; [|discriminate]. apply Bool.eqb_prop in H. by subst.
  - destruct (Z.eqb_spec z' z); [by subst | discriminate].
  - destruct (String.eqb_spec s' s); [by subst | discriminate].
Qed.

Lemma validate_zip_scalars og args :
  Forall scalar args -> (length args <= length og)%nat -> validate_zip og args = Val tt ->
  exists extra, og = (args ++ extra)%list.
Proof.
  revert og. induction args as [|u us IH]; intros og Hs Hlen Hz.
  - by exists og.
  - apply Forall_cons in Hs as [Hu Hs].
    destruct og as [|a og]; [cbn in Hlen; lia|]. cbn in Hz, Hlen.
    destruct (_validate a u) as [[]|e] eqn:Ha; [|discriminate].
    apply (scalar_unchanged a u Hu) in Ha. subst a.
    destruct (IH og Hs ltac:(lia) Hz) as [extra ->]. by exists extra.
Qed.

Lemma validate_items_lookup og kws key :
  validate_items og kws = Val tt -> In key (dict_keys og) ->
  _validate (dict_get og key) (dict_get kws key) = Val tt.
Proof.
  induction og as [|[k a] og IH]; [intros _ []|]. cbn. intros Hv Hin.
  destruct (_validate a (dict_get kws k)) as [[]|e] eqn:Ha; [|discriminate].
  destruct (String.eqb_spec k key) as [->|Hne]; [exact Ha|].
  apply IH; [exact Hv|]. destruct Hin as [Heq|Hin]; [contradiction | exact Hin].
Qed.

(** X6.  A validation that succeeds guarantees that the user's integers,
    strings and truth values (the values called scalar here; floating-point
    numbers are not among the values modelled) reach the original function
    unchanged: if the positional arguments are all such values, the
    positional arguments of the call start with the user's, and every
    keyword the user gave such a value is passed on with that value. *)
Theorem validated_call_forwards_scalars (args og_args : list pyval) (kws og_kws : kwargs) :
  _validate_args args kws og_args og_kws = Val tt ->
  (Forall scalar args -> exists extra, og_args = (args ++ extra)%list)
  /\ (forall key, In key (dict_keys kws) -> scalar (dict_get kws key) ->
      dict_get og_kws key = dict_get kws key).
Proof.
  unfold _validate_args. rewrite validate_tuple, validate_dict.
  destruct (length og_args <? length args)%nat eqn:Hlen; [discriminate|].
  destruct (validate_zip og_args args) as [[]|e] eqn:Hz; [|discriminate].
  destruct (keys_issubset kws og_kws) eqn:Hsub; [|discriminate]. cbn [negb]. intros Hitems.
  split.
  - intros Hs. apply Nat.ltb_ge in Hlen. by apply validate_zip_scalars.
  - intros key Hin Hsc. apply scalar_unchanged; [exact Hsc|].
    apply validate_items_lookup; [exact Hitems|].
    unfold keys_issubset in Hsub. rewrite forallb_forall in Hsub.
    apply has_key_In, Hsub, Hin.
Qed.

Lemma validated_call_forwards_scalars_witness :
  (Forall scalar [VInt 1; VStr "a"] ->
   exists extra, [VInt 1; VStr "a"; VCallable 7 true] = ([VInt 1; VStr "a"] ++ extra)%list)
  /\ (forall key, In key (dict_keys [("epochs", VInt 3)]) ->
      scalar (dict_get [("epochs", VInt 3)] key) ->
      dict_get [("epochs", VInt 3); ("callbacks", VList [])] key
      = dict_get [("epochs", VInt 3)] key).
Proof.
  apply (validated_call_forwards_scalars [VInt 1; VStr "a"]
           [VInt 1; VStr "a"; VCallable 7 true] [("epochs", VInt 3)]
           [("epochs", VInt 3); ("callbacks", VList [])]).
  reflexivity.
Defined.

(** ** Logging that must not fail, sessions, and the closure handed to a patch *)

(** X7.  Outside test mode [try_mlflow_log] never raises an [Exception],
    whatever the logging function does: a failure of the function ends in
    [None]; the session manager and the tracking backend are left as the
    function left them, and a result of the function is passed on with the
    state it produced. *)
Theorem try_mlflow_log_never_raises_in_production {A} env (fn : M World A) w :
  is_testing env = false ->
  let run := try_mlflow_log env fn w in
  (forall e, fst run = Exc e -> isinstance_Exception e = false)
  /\ (forall e, fst (fn w) = Exc e -> isinstance_Exception e = true -> fst run = Val None)
  /\ manager (snd run) = manager (snd (fn w))
  /\ tracking (snd run) = tracking (snd (fn w))
  /\ (forall a, fst (fn w) = Val a -> run = (Val (Some a), snd (fn w))).
Proof.
  intros Hprod. unfold try_mlflow_log, try_except, bind, ret, emit, modify.
  destruct (fn w) as [[a|e'] w1]; cbn.
  - repeat split; try discriminate. by intros a' [= ->].
  - destruct (isinstance_Exception e') eqn:He'.
    + rewrite Hprod. cbn. repeat split; discriminate.
    + cbn. repeat split; try discriminate; [by intros e [= <-] | by intros e [= <-]; congruence].
Qed.

Lemma try_mlflow_log_never_raises_in_production_witness :
  let run := try_mlflow_log unconfigured (mlflow_start_run false [])
               (snd (mlflow_start_run false [] fresh_world)) in
  fst run = Val None
  /\ tracking (snd run) = mkTracking [mkRun 0 RUNNING []] [0].
Proof.
  destruct (try_mlflow_log_never_raises_in_production unconfigured (mlflow_start_run false [])
              (snd (mlflow_start_run false [] fresh_world)) eq_refl) as (_ & Hnone & _ & Ht & _).
  split; [exact (Hnone _ eq_refl eq_refl) | exact Ht].
Defined.

(** X8.  In test mode [try_mlflow_log] is transparent: the outcome and the
    state are those of the logging function, a failure included. *)
Theorem try_mlflow_log_transparent_in_test_mode {A} env (fn : M World A) w :
  is_testing env = true ->
  try_mlflow_log env fn w
  = (match fst (fn w) with Val a => Val (Some a) | Exc e => Exc e end, snd (fn w)).
Proof.
  intros Htest. unfold try_mlflow_log, try_except, bind, ret.
  destruct (fn w) as [[a|e] w1]; cbn; [reflexivity|].
  rewrite Htest. by destruct (isinstance_Exception e).
Qed.

Lemma try_mlflow_log_transparent_in_test_mode_witness :
  try_mlflow_log (env_of "sklearn" true) (mlflow_start_run false [])
    (snd (mlflow_start_run false [] fresh_world))
  = (Exc (Exn ExceptionCls "Run is already active"),
     snd (mlflow_start_run false [] fresh_world)).
Proof.
  exact (try_mlflow_log_transparent_in_test_mode (env_of "sklearn" true)
           (mlflow_start_run false []) (snd (mlflow_start_run false [] fresh_world)) eq_refl).
Defined.

(** X9.  Logging an autologging event never raises an [Exception], whatever
    the event logger does, and does not touch the variables of the guarded
    call. *)
Theorem event_logging_never_raises (log_fn : M World unit) (c : Ctx) :
  (forall e, fst (try_log_autologging_event log_fn c) = Exc e -> isinstance_Exception e = false)
  /\ locals (snd (try_log_autologging_event log_fn c)) = locals c.
Proof.
  unfold try_log_autologging_event, try_except, in_world, zoom, emit, modify.
  destruct (log_fn (world c)) as [[[]|e'] w1]; cbn.
  - split; [discriminate | reflexivity].
  - destruct (isinstance_Exception e') eqn:He'; cbn.
    + split; [discriminate | reflexivity].
    + split; [by intros e [= <-] | reflexivity].
Qed.

(** X10.  A call of [start_session] made while no session is active creates
    a session in state running, makes it the active one for the body, and
    leaves no active session behind, whether the body returned or raised
    (a [KeyboardInterrupt] included). *)
Theorem start_session_owner_ends_session {A} integ (body : nat -> M Ctx A) (c : Ctx) :
  _session (manager (world c)) = None ->
  let session := length (sessions (manager (world c))) in
  let c1 := with_world (with_manager (open_session integ)) c in
  let run := start_session integ body c in
  state_of session (world c1) = Some running
  /\ _session (manager (world c1)) = Some session
  /\ fst run = fst (body session c1)
  /\ _session (manager (world (snd run))) = None
  /\ sessions (manager (world (snd run))) = sessions (manager (world (snd (body session c1)))).
Proof.
  intros Hnone. unfold start_session, state_of, with_world, with_manager, open_session.
  unfold bind, in_world, zoom, read, ret, try_finally, active_session, new_session, set_active,
    _end_session, modify, with_manager.
  cbn. rewrite Hnone. cbn.
  split; [by rewrite lookup_app_r, Nat.sub_diag by lia|].
  split; [reflexivity|].
  destruct (body _ _) as [r c2]. cbn. repeat split.
Qed.

Lemma start_session_owner_ends_session_witness :
  let run := start_session (A := pyval) "sklearn" (fun _ => raise ctrl_c)
               (enter fresh_world) in
  fst run = Exc ctrl_c /\ _session (manager (world (snd run))) = None.
Proof.
  destruct (start_session_owner_ends_session (A := pyval) "sklearn" (fun _ => raise ctrl_c)
              (enter fresh_world) eq_refl) as (_ & _ & Hr & Hs & _).
  split; [exact Hr | exact Hs].
Defined.

(** X11.  A call of [start_session] made while a session is active runs its
    body in that session and does nothing else: it creates no session and
    does not end the active one. *)
Theorem start_session_nested_is_body {A} integ (body : nat -> M Ctx A) (c : Ctx) session :
  _session (manager (world c)) = Some session ->
  start_session integ body c = body session c.
Proof.
  intros Hs. unfold start_session.
  unfold bind, in_world, zoom, read, ret, try_finally, active_session.
  cbn. rewrite Hs. destruct c as [f w]. cbn.
  by destruct (body session _) as [[a|e] c2].
Qed.

Lemma start_session_nested_is_body_witness :
  start_session "sklearn" (fun s => ret (VInt (Z.of_nat s)))
    (with_world (with_manager (open_session "keras")) (enter fresh_world))
  = (Val (VInt 0), with_world (with_manager (open_session "keras")) (enter fresh_world)).
Proof.
  exact (start_session_nested_is_body "sklearn" (fun s => ret (VInt (Z.of_nat s)))
           (with_world (with_manager (open_session "keras")) (enter fresh_world)) 0 eq_refl).
Defined.

Lemma validate_new_input_assertion v e :
  _validate_new_input v = Exc e -> exn_cls e = AssertionError.
Proof.
  revert e.
  induction v as [ | b | z | s | items IH | items IH | items IH | a s | a c]
    using pyval_nested_ind; intros e; cbn; try (by intros [= <-]).
  - induction items as [|x xs IHxs]; [discriminate|].
    apply Forall_cons in IH as [IHx IH].
    destruct (_validate_new_input x) as [[]|e'] eqn:Hx; [by apply IHxs|].
    intros [= <-]. by apply IHx.
  - destruct s; [discriminate | by intros [= <-]].
  - destruct (cls_meta c); try discriminate; by intros [= <-].
Qed.

Lemma validate_assertion a u e : _validate a u = Exc e -> exn_cls e = AssertionError.
Proof.
  revert u e.
  induction a as [ | b | z | s | items IH | items IH | items IH | ad sf | ad c]
    using pyval_nested_ind; intros u e.
  1-4, 8-9: (destruct u; cbn; unfold assertion_failure;
             repeat match goal with
                    | |- context [if ?b then _ else _] => destruct b
                    | |- context [match cls_meta ?c with _ => _ end] => destruct (cls_meta c)
                    end;
             try discriminate; by intros [= <-]).
  - destruct u as [ | | | | lu | | | | ]; try (cbn; unfold assertion_failure; by intros [= <-]).
    + rewrite validate_absent. apply validate_new_input_assertion.
    + rewrite validate_list. destruct (_ <? _)%nat; [unfold assertion_failure; by intros [= <-]|].
      revert lu. induction items as [|x xs IHxs]; intros lu; [discriminate|].
      apply Forall_cons in IH as [IHx IH]. cbn.
      destruct (_validate x (hd VNone lu)) as [[]|e'] eqn:Hx; [by apply IHxs|].
      intros [= <-]. by apply (IHx _ _ Hx).
  - destruct u as [ | | | | | lu | | | ]; try (cbn; unfold assertion_failure; by intros [= <-]).
    + rewrite validate_tuple. destruct (_ <? _)%nat; [unfold assertion_failure; by intros [= <-]|].
      revert lu. induction items as [|x xs IHxs]; intros lu; [discriminate|].
      apply Forall_cons in IH as [IHx IH]. cbn.
      destruct (_validate x (hd VNone lu)) as [[]|e'] eqn:Hx; [by apply IHxs|].
      intros [= <-]. by apply (IHx _ _ Hx).
  - destruct u as [ | | | | | | du | | ]; try (cbn; unfold assertion_failure; by intros [= <-]).
    + rewrite validate_dict. destruct (negb _); [unfold assertion_failure; by intros [= <-]|].
      induction items as [|[k x] xs IHxs]; [discriminate|].
      apply Forall_cons in IH as [IHx IH]. cbn.
      destruct (_validate x (dict_get du k)) as [[]|e'] eqn:Hx; [by apply IHxs|].
      intros [= <-]. by apply (IHx _ _ Hx).
Qed.

Lemma validate_args_assertion args kws a kw e :
  _validate_args args kws a kw = Exc e -> isinstance_Exception e = true.
Proof.
  unfold _validate_args, isinstance_Exception.
  destruct (_validate (VTuple a) (VTuple args)) as [[]|e'] eqn:Ht.
  - intros H. by rewrite (validate_assertion _ _ _ H).
  - intros [= <-]. by rewrite (validate_assertion _ _ _ Ht).
Qed.

(** X12.  Outside test mode the closure handed to a patch invokes the
    original function with whatever arguments the patch gives it, once, in
    the world as it is after the start event (warnings of the thread neither
    disabled nor rerouted); the outcome of the closure is the outcome of the
    original function; the call is remembered as made; the warning behaviour
    of the thread is afterwards what it was; the frame remembers a failure
    exactly when the original function raised an [Exception]. *)
Theorem call_original_in_production env dest fn original session args kws a kw c :
  is_testing env = false ->
  let w_in :=
    with_diagnostics
      (fun d => mkDiagnostics (mkThreadWarnings false false) (global_behavior d))
      (snd (log_event original_function_start session dest fn a kw None (world c))) in
  let run := call_original env dest fn original session args kws a kw c in
  fst run = fst (original a kw w_in)
  /\ og_calls (locals (snd run)) = (og_calls (locals c) ++ [(a, kw, fst run)])%list
  /\ original_has_been_called (locals (snd run)) = true
  /\ thread_warnings (diagnostics (world (snd run))) = thread_warnings (diagnostics (world c))
  /\ failed_during_original (locals (snd run))
     = match fst run with
       | Val _ => failed_during_original (locals c)
       | Exc e => isinstance_Exception e || failed_during_original (locals c)
       end.
Proof.
  intros Hprod. unfold call_original. rewrite Hprod.
  unfold log, try_log_autologging_event, set_non_mlflow_warnings_behavior_for_current_thread,
    invoke_original, note_call, get_locals, set_local.
  unfold try_except, bind, in_world, zoom, read, modify, ret, raise, log_event, emit,
    install_thread, with_world, with_diagnostics, with_sinks, with_locals.
  cbn.
  destruct (original a kw _) as [[v|e] w1]; cbn.
  - repeat split.
  - destruct e as [[] msg]; cbn; repeat split.
Qed.

Lemma call_original_in_production_witness :
  let run := call_original (env_of "sklearn" false) "Model" "fit" double 0 [VInt 5] []
               [VInt 7] [] (enter fresh_world) in
  fst run = Val (VInt 14)
  /\ og_calls (locals (snd run)) = [([VInt 7], [], Val (VInt 14))].
Proof.
  destruct (call_original_in_production (env_of "sklearn" false) "Model" "fit" double 0
              [VInt 5] [] [VInt 7] [] (enter fresh_world) eq_refl) as (Hr & Hc & _).
  split; [exact Hr|]. rewrite Hc, Hr. reflexivity.
Defined.

(** X13.  In test mode a call of the closure with arguments that fail the
    validation does not reach the original function: the closure raises the
    assertion failure, no invocation is made or remembered, and the frame
    records a failure during the original function. *)
Theorem call_original_rejects_in_test_mode env dest fn original session args kws a kw c e :
  is_testing env = true ->
  _validate_args args kws a kw = Exc e ->
  let run := call_original env dest fn original session args kws a kw c in
  fst run = Exc e
  /\ og_calls (locals (snd run)) = og_calls (locals c)
  /\ original_has_been_called (locals (snd run)) = original_has_been_called (locals c)
  /\ failed_during_original (locals (snd run)) = true
  /\ journal (sinks (world (snd run))) = journal (sinks (world c)).
Proof.
  intros Htest Hval. pose proof (validate_args_assertion _ _ _ _ _ Hval) as He.
  unfold call_original. rewrite Htest, Hval.
  unfold log, try_log_autologging_event, get_locals, set_local.
  unfold try_except, bind, in_world, zoom, read, modify, ret, raise, of_res, log_event, emit,
    with_world, with_diagnostics, with_sinks, with_locals.
  cbn. rewrite He. cbn. repeat split.
Qed.

Lemma call_original_rejects_in_test_mode_witness :
  let run := call_original (env_of "sklearn" true) "Model" "fit" double 0 [VInt 5] []
               [VInt 7] [] (enter fresh_world) in
  (exists msg, fst run = Exc (Exn AssertionError msg))
  /\ og_calls (locals (snd run)) = []
  /\ journal (sinks (world (snd run))) = [].
Proof.
  destruct (call_original_rejects_in_test_mode (env_of "sklearn" true) "Model" "fit" double 0
              [VInt 5] [] [VInt 7] [] (enter fresh_world) _ eq_refl eq_refl)
    as (Hr & Hc & _ & _ & Hj).
  split; [by eexists|]. split; [exact Hc | exact Hj].
Defined.

(** ** The guarded call as a whole *)

Lemma check_runs_production env integ c :
  is_testing env = false -> check_runs env integ c = (Val tt, c).
Proof.
  intros Hprod. unfold check_runs, bind, get_locals, read, ret. rewrite Hprod. reflexivity.
Qed.

Lemma check_runs_cases env integ c :
  check_runs env integ c = (Val tt, c)
  \/ (is_testing env = true /\ exists e, check_runs env integ c = (Exc e, c)).
Proof.
  destruct (is_testing env) eqn:Ht.
  - pose proof (check_runs_id env integ c) as Hid.
    destruct (check_runs env integ c) as [[[]|e] c1]; cbn in Hid; subst c1.
    + by left.
    + right. split; [reflexivity | by exists e].
  - left. by apply check_runs_production.
Qed.

Lemma result_or_fallback_shape original args kws c :
  result_or_fallback original args kws c
  = if original_has_been_called (locals c) then (Val (original_result (locals c)), c)
    else (fst (original args kws (world c)),
          mkCtx (note_call (args, kws, fst (original args kws (world c))) (locals c))
                (snd (original args kws (world c)))).
Proof.
  unfold result_or_fallback, invoke_original.
  unfold in_world. unfold bind, zoom, get_locals, read, ret, with_locals.
  destruct c as [f w]. cbn.
  destruct (original_has_been_called f); [reflexivity|]. cbn.
  by destruct (original args kws w) as [r w'].
Qed.

Lemma success_prefix dest fn session args kws c :
  exists w',
    tracking w' = tracking (world c)
    /\ forall (k : M Ctx pyval),
         (in_world (set_state session succeeded) ;;
          log dest fn patch_function_success session args kws None ;; k) c
         = k (mkCtx (locals c) w').
Proof.
  unfold log, try_log_autologging_event, log_event, emit.
  unfold in_world. unfold bind, zoom, set_state, modify, try_except, ret. cbn.
  eexists. split; [|intros k; reflexivity]. reflexivity.
Qed.

Lemma on_patch_exception_tracking env integ dest fn session args kws e c :
  exists w',
    on_patch_exception env integ dest fn session args kws e c
    = (if failed_during_original (locals c) || is_testing env then Exc e else Val tt,
       mkCtx (locals c) w')
    /\ tracking w' = tracking (world c).
Proof.
  unfold on_patch_exception, log, try_log_autologging_event, log_event, emit.
  unfold in_world. unfold bind, zoom, set_state, modify, get_locals, read, try_except, raise, ret.
  cbn. destruct (failed_during_original (locals c) || is_testing env); eexists; split;
    reflexivity.
Qed.


Lemma call_original_cases env dest fn original session args kws a kw c :
  let f := locals c in
  let run := call_original env dest fn original session args kws a kw c in
  (is_testing env = true
   /\ (exists e, _validate_args args kws a kw = Exc e /\ fst run = Exc e)
   /\ exists pfr,
        locals (snd run)
        = mkFrame (preexisting_run_for_testing f) (original_has_been_called f)
                  (original_result f) true pfr (og_calls f))
  \/ (exists pfr,
        locals (snd run)
        = mkFrame (preexisting_run_for_testing f) true
                  (match fst run with Val v => v | Exc _ => original_result f end)
                  (match fst run with
                   | Val _ => failed_during_original f
                   | Exc e => isinstance_Exception e || failed_during_original f
                   end)
                  pfr (og_calls f ++ [(a, kw, fst run)])).
Proof.
  unfold call_original, log, try_log_autologging_event, log_event, emit,
    invoke_original, set_non_mlflow_warnings_behavior_for_current_thread, install_thread,
    note_call.
  unfold in_world. unfold try_except, bind, zoom, modify, set_local, get_locals, read, ret,
    raise, of_res, mlflow_active_run, with_locals, with_world.
  cbn.
  destruct (is_testing env); cbn.
  - destruct (_validate_args args kws a kw) as [[]|ae] eqn:Hv; cbn.
    + right. destruct (original a kw _) as [[v|e] w']; cbn; [by eexists|].
      destruct e as [[] msg]; cbn; by eexists.
    + left. rewrite (validate_args_assertion _ _ _ _ _ Hv). cbn.
      split; [reflexivity|]. split; [by exists ae | by eexists].
  - right. destruct (original a kw _) as [[v|e] w']; cbn; [by eexists|].
    destruct e as [[] msg]; cbn; by eexists.
Qed.

Lemma exec_frame (P : Frame -> Prop) (co : Closure) :
  (forall a kw c, P (locals c) -> P (locals (snd (co a kw c)))) ->
  forall p c, P (locals c) -> P (locals (snd (exec p co c))).
Proof.
  intros Hco p. induction p as [v | e | a kw k IH | action k IH]; intros c Hc; cbn.
  - exact Hc.
  - exact Hc.
  - specialize (Hco a kw c Hc). destruct (co a kw c) as [r c1]. by apply IH.
  - unfold in_world, zoom. destruct (action (world c)) as [r w1]. by apply IH.
Qed.

Lemma invoke_frame (P : Frame -> Prop) env integ ps manage_run co args kws c :
  (forall a kw c, P (locals c) -> P (locals (snd (co a kw c)))) ->
  P (locals c) ->
  P (locals (snd (invoke_patch (managed env integ (implement ps) manage_run) co args kws c))).
Proof.
  intros Hco Hc.
  destruct (invoke_shape env integ ps manage_run co args kws c) as (c0 & c2 & H0 & Hrun & Hl).
  rewrite Hl. pose proof (exec_frame P co Hco (body_of ps args kws) c0) as He.
  rewrite Hrun in He. apply He. by rewrite H0.
Qed.

Lemma last_returned_snoc calls a kw r :
  last_returned (calls ++ [(a, kw, r)])
  = match r with Val v => v | Exc _ => last_returned calls end.
Proof. unfold last_returned. by rewrite foldl_app. Qed.

Lemma call_original_remembers env dest fn original session args kws a kw c :
  remembers_result (locals c) ->
  remembers_result
    (locals (snd (call_original env dest fn original session args kws a kw c))).
Proof.
  intros [Hres Hcalled].
  destruct (call_original_cases env dest fn original session args kws a kw c)
    as [(_ & _ & pfr & ->) | (pfr & ->)]; split; cbn.
  - exact Hres.
  - exact Hcalled.
  - rewrite last_returned_snoc. by destruct (fst _).
  - by destruct (og_calls (locals c)).
Qed.

Lemma call_original_remembers_failure env dest fn original session args kws a kw c :
  is_testing env = false ->
  remembers_failure (locals c) ->
  remembers_failure
    (locals (snd (call_original env dest fn original session args kws a kw c))).
Proof.
  intros Hprod Hfailed.
  destruct (call_original_cases env dest fn original session args kws a kw c)
    as [(Ht & _) | (pfr & ->)]; [congruence|].
  unfold remembers_failure. cbn.
  assert (Hold : failed_during_original (locals c) = true ->
                 exists a' kw' E,
                   In (a', kw', Exc E)
                      (og_calls (locals c)
                       ++ [(a, kw, fst (call_original env dest fn original session args kws
                                          a kw c))])%list
                   /\ isinstance_Exception E = true).
  { intros Hf. destruct (Hfailed Hf) as (a' & kw' & E & Hin & HE).
    exists a', kw', E. split; [apply in_or_app; by left | exact HE]. }
  destruct (fst _) as [v|e] eqn:Hr; [exact Hold|].
  destruct (isinstance_Exception e) eqn:He; [|exact Hold].
  intros _. exists a, kw, e. split; [apply in_or_app; right; by left | exact He].
Qed.

Lemma call_original_records_failure env dest fn original session args kws a kw c :
  records_failure (locals c) ->
  records_failure
    (locals (snd (call_original env dest fn original session args kws a kw c))).
Proof.
  intros Hrec a' kw' E.
  destruct (call_original_cases env dest fn original session args kws a kw c)
    as [(_ & _ & pfr & ->) | (pfr & ->)]; cbn.
  - reflexivity.
  - intros Hin HE. apply in_app_or in Hin as [Hin | [Heq | []]].
    + rewrite (Hrec a' kw' E Hin HE). by destruct (fst _); rewrite ?orb_true_r.
    + injection Heq as _ _ Hr. rewrite Hr, HE. reflexivity.
Qed.

Lemma call_original_preexisting env dest fn original session args kws a kw c :
  preexisting_run_for_testing
    (locals (snd (call_original env dest fn original session args kws a kw c)))
  = preexisting_run_for_testing (locals c).
Proof.
  by destruct (call_original_cases env dest fn original session args kws a kw c)
    as [(_ & _ & pfr & ->) | (pfr & ->)].
Qed.

Lemma success_prefix_manager dest fn session args kws c :
  exists w',
    manager w'
    = mkManager (_session (manager (world c)))
        (alter (fun o => mkSession (integration o) (id_ o) succeeded) session
           (sessions (manager (world c))))
        (state_writes (manager (world c)) ++ [(session, succeeded)])
    /\ forall (k : M Ctx pyval),
         (in_world (set_state session succeeded) ;;
          log dest fn patch_function_success session args kws None ;; k) c
         = k (mkCtx (locals c) w').
Proof.
  unfold log, try_log_autologging_event, log_event, emit.
  unfold in_world. unfold bind, zoom, set_state, modify, try_except, ret. cbn.
  eexists. split; [|intros k; reflexivity]. reflexivity.
Qed.

(** How a guarded call that ran its patch ends, with what it did to the
    session manager.  Either the safety layer does not invoke the original
    function itself: the patch raised and that is raised on; or the check
    of test mode failed after the patch had returned; or the remembered
    result is returned.  Or it invokes it, once, in a world [w3].  An
    exception of the patch that is not raised on is an [Exception] that came
    while no failure of the original function was remembered, outside test
    mode. *)
Lemma guarded_outcome env integ dest fn original pf args kws w rp c2 :
  short_circuit env integ w = false ->
  invoke_patch pf (call_original env dest fn original (session_of w) args kws) args kws
    (entry env integ dest fn args kws w) = (rp, c2) ->
  let session := session_of w in
  let m2 := manager (world c2) in
  let assigned := match rp with
                  | Val _ => Some succeeded
                  | Exc e => if isinstance_Exception e then Some failed else None
                  end in
  let m3 :=
    mkManager (_session m2)
      (match assigned with
       | Some st => alter (fun o => mkSession (integration o) (id_ o) st) session (sessions m2)
       | None => sessions m2
       end)
      (state_writes m2 ++ match assigned with Some st => [(session, st)] | None => [] end) in
  let close (m : SessionManager) :=
    if truthy (_session (manager w)) then m
    else mkManager None (sessions m) (state_writes m) in
  let absorbed :=
    forall e, rp = Exc e ->
              isinstance_Exception e = true
              /\ failed_during_original (locals c2) = false
              /\ is_testing env = false in
  let run := safe_patch_function env integ dest fn original pf args kws (enter w) in
  (locals (snd run) = locals c2
   /\ manager (world (snd run)) = close m3
   /\ ((exists e, rp = Exc e /\ fst run = Exc e
                  /\ (isinstance_Exception e = false
                      \/ failed_during_original (locals c2) = true
                      \/ is_testing env = true))
       \/ (is_testing env = true /\ (exists v, rp = Val v) /\ exists e, fst run = Exc e)
       \/ (original_has_been_called (locals c2) = true
           /\ fst run = Val (original_result (locals c2))
           /\ absorbed)))
  \/ (exists w3,
        manager w3 = m3
        /\ original_has_been_called (locals c2) = false
        /\ fst run = fst (original args kws w3)
        /\ locals (snd run) = note_call (args, kws, fst (original args kws w3)) (locals c2)
        /\ manager (world (snd run)) = close (manager (snd (original args kws w3)))
        /\ absorbed).
Proof.
  intros Hskip Hrun session m2 assigned m3 close absorbed run. subst run.
  rewrite (unfold_instrumented _ _ _ _ _ _ _ _ _ Hskip). cbn zeta. rewrite Hrun.
  fold session.
  assert (Hepi : forall w', manager w' = m3 -> absorbed ->
    let out := leaving w ((check_runs env integ ;; result_or_fallback original args kws)
                            (mkCtx (locals c2) w')) in
    (locals (snd out) = locals c2
     /\ manager (world (snd out)) = close m3
     /\ ((exists e, rp = Exc e /\ fst out = Exc e
                    /\ (isinstance_Exception e = false
                        \/ failed_during_original (locals c2) = true
                        \/ is_testing env = true))
         \/ (is_testing env = true /\ (exists v, rp = Val v) /\ exists e, fst out = Exc e)
         \/ (original_has_been_called (locals c2) = true
             /\ fst out = Val (original_result (locals c2))
             /\ absorbed)))
    \/ (exists w3,
          manager w3 = m3
          /\ original_has_been_called (locals c2) = false
          /\ fst out = fst (original args kws w3)
          /\ locals (snd out) = note_call (args, kws, fst (original args kws w3)) (locals c2)
          /\ manager (world (snd out)) = close (manager (snd (original args kws w3)))
          /\ absorbed)).
  { intros w' Hm Habs out. subst out. unfold leaving, leave.
    destruct (check_runs_cases env integ (mkCtx (locals c2) w')) as [Hc | [Ht [e Hc]]].
    - rewrite (bind_val _ _ _ _ _ Hc), result_or_fallback_shape. cbn [locals world].
      destruct (original_has_been_called (locals c2)) eqn:Hcalled.
      + left. cbn [fst snd locals world manager]. rewrite Hm.
        split; [reflexivity|]. split; [reflexivity|]. right. right.
        split; [reflexivity|]. split; [reflexivity | exact Habs].
      + right. exists w'. cbn [fst snd locals world manager].
        split; [exact Hm|]. split; [reflexivity|]. split; [reflexivity|].
        split; [reflexivity|]. split; [reflexivity | exact Habs].
    - rewrite (bind_exc _ _ _ _ _ Hc). left. cbn [fst snd locals world manager]. rewrite Hm.
      split; [reflexivity|]. split; [reflexivity|]. right. left.
      split; [exact Ht|]. split; [|by exists e].
      destruct rp as [v|e0]; [by exists v|].
      destruct (Habs e0 eq_refl) as (_ & _ & Hprod). congruence. }
  destruct rp as [v|e].
  - destruct (success_prefix_manager dest fn session args kws c2) as (w' & Hm & Hk).
    rewrite Hk. apply Hepi; [exact Hm | intros e; discriminate].
  - destruct (isinstance_Exception e) eqn:He.
    + destruct (on_patch_exception_shape env integ dest fn session args kws e c2)
        as (w' & Hh & Hm).
      destruct (failed_during_original (locals c2) || is_testing env) eqn:Hre.
      * rewrite (bind_exc _ _ _ _ _ Hh). left. unfold leaving, leave.
        cbn [fst snd locals world manager]. rewrite Hm.
        split; [reflexivity|]. split; [reflexivity|]. left. exists e.
        split; [reflexivity|]. split; [reflexivity|]. right.
        apply orb_true_iff in Hre. exact Hre.
      * rewrite (bind_val _ _ _ _ _ Hh). apply Hepi; [exact Hm|].
        intros e' [= <-]. apply orb_false_elim in Hre as [Hf Ht].
        split; [exact He|]. split; [exact Hf | exact Ht].
    + left. unfold leave. cbn [fst snd locals world manager].
      split; [reflexivity|]. split.
      * subst m3 assigned close. cbn. rewrite app_nil_r. subst m2.
        by destruct (manager (world c2)).
      * left. exists e. split; [reflexivity|]. split; [reflexivity | by left].
Qed.

(** ** Failures of the original function, for every patch *)

(** C1, as amended.  For every patch implementation - a function or a
    [PatchFunction] class, with or without a managed run - all call
    arguments and every guarded call, in production mode and in test mode:
    if in that call the patch did not catch or replace what the original
    function raised, that is, every exception that came out of an invocation
    of the original function made by the patch is the exception the patch
    ended with (directly, or after cleanup code as in try/finally or a
    with-block), then whenever an invocation of the original function made
    during the guarded call, by the patch or by the safety layer itself,
    raised [E], the guarded call raises [E]. *)
Theorem original_failure_surfaces env integ dest fn original ps manage_run args kws w a kw E :
  let patched :=
    invoke_patch (managed env integ (implement ps) manage_run)
      (call_original env dest fn original (session_of w) args kws) args kws
      (entry env integ dest fn args kws w) in
  (short_circuit env integ w = false ->
   forall a' kw' E',
     In (a', kw', Exc E') (og_calls (locals (snd patched))) -> fst patched = Exc E') ->
  let run := safe_patch env integ dest fn original (implement ps) manage_run args kws (enter w) in
  In (a, kw, Exc E) (og_calls (locals (snd run))) ->
  fst run = Exc E.
Proof.
  intros patched Hthrough run. subst patched run. unfold safe_patch.
  destruct (short_circuit env integ w) eqn:Hskip.
  - rewrite (unfold_skipped _ _ _ _ _ _ _ _ _ Hskip). cbn.
    intros [Heq | []]. by injection Heq as _ _ ->.
  - specialize (Hthrough eq_refl).
    destruct (invoke_patch (managed env integ (implement ps) manage_run)
                (call_original env dest fn original (session_of w) args kws) args kws
                (entry env integ dest fn args kws w)) as [rp c2] eqn:Hrun.
    cbn [fst snd] in Hthrough.
    assert (Hrec : records_failure (locals c2)).
    { pose proof (invoke_frame records_failure env integ ps manage_run
                    (call_original env dest fn original (session_of w) args kws) args kws
                    (entry env integ dest fn args kws w)) as H.
      rewrite Hrun in H. apply H.
      - intros a0 kw0 c. apply call_original_records_failure.
      - intros a0 kw0 E0 []. }
    assert (Hno : (forall e, rp = Exc e ->
                     isinstance_Exception e = true
                     /\ failed_during_original (locals c2) = false
                     /\ is_testing env = false) ->
                  ~ In (a, kw, Exc E) (og_calls (locals c2))).
    { intros Habs Hin. destruct (Habs E (Hthrough _ _ _ Hin)) as (HE & Hf & _).
      rewrite (Hrec _ _ _ Hin HE) in Hf. discriminate. }
    destruct (guarded_outcome _ _ _ _ _ _ _ _ _ _ _ Hskip Hrun)
      as [(-> & _ & [(e & -> & -> & _) | [(_ & [v ->] & _) | (_ & _ & Habs)]])
         | (w3 & _ & _ & -> & -> & _ & Habs)].
    + intros Hin. by rewrite (Hthrough _ _ _ Hin).
    + intros Hin. discriminate (Hthrough _ _ _ Hin).
    + intros Hin. destruct (Hno Habs Hin).
    + cbn. intros Hin. apply in_app_or in Hin as [Hin | [Heq | []]].
      * destruct (Hno Habs Hin).
      * by injection Heq as _ _ ->.
Qed.

(** C1, an instance: the patch runs cleanup before the failure of the
    original function propagates. *)
Lemma original_failure_surfaces_witness :
  fst scenario_cleanup = Exc boom
  /\ journal (sinks (world (snd scenario_cleanup))) = [VStr "cleanup"].
Proof.
  split; [|vm_compute; reflexivity].
  apply (original_failure_surfaces (env_of "sklearn" false) "sklearn" "Model" "fit"
           failing_original cleanup_patch false [VInt 5] [] fresh_world [VInt 5] [] boom).
  - intros _ a' kw' E'. vm_compute. intros [Heq | []]. by injection Heq as _ _ <-.
  - vm_compute. left. reflexivity.
Defined.

(** ** Assignments of the session state, for every guarded call *)

(** C4, as amended.  For every guarded call that runs its patch, whatever
    the patch and the original function do to the session manager - nested
    guarded calls included: the call makes no assignment before the patch
    starts; after the patch has ended, and before any invocation of the
    original function of its own, it assigns the state of the session it
    runs in exactly once - succeeded when the patch returned, failed when it
    raised an [Exception] - and not at all when something outside
    [Exception] passes through; the assignment comes after whatever nested
    calls assigned while the patch ran and overwrites it; on the way out
    the active session is cleared exactly if this call created it. *)
Theorem guarded_call_assigns_state_once env integ dest fn original pf args kws w rp c2 :
  short_circuit env integ w = false ->
  invoke_patch pf (call_original env dest fn original (session_of w) args kws) args kws
    (entry env integ dest fn args kws w) = (rp, c2) ->
  let session := session_of w in
  let m2 := manager (world c2) in
  let assigned := match rp with
                  | Val _ => Some succeeded
                  | Exc e => if isinstance_Exception e then Some failed else None
                  end in
  let m3 :=
    mkManager (_session m2)
      (match assigned with
       | Some st => alter (fun o => mkSession (integration o) (id_ o) st) session (sessions m2)
       | None => sessions m2
       end)
      (state_writes m2 ++ match assigned with Some st => [(session, st)] | None => [] end) in
  let close (m : SessionManager) :=
    if truthy (_session (manager w)) then m
    else mkManager None (sessions m) (state_writes m) in
  let run := safe_patch_function env integ dest fn original pf args kws (enter w) in
  state_writes (manager (world (entry env integ dest fn args kws w))) = state_writes (manager w)
  /\ ((locals (snd run) = locals c2 /\ manager (world (snd run)) = close m3)
      \/ exists w3,
           manager w3 = m3
           /\ fst run = fst (original args kws w3)
           /\ locals (snd run) = note_call (args, kws, fst (original args kws w3)) (locals c2)
           /\ manager (world (snd run)) = close (manager (snd (original args kws w3)))).
Proof.
  intros Hskip Hrun session m2 assigned m3 close run. split.
  - unfold entry, open_session. cbn. by destruct (_session (manager w)).
  - destruct (guarded_outcome _ _ _ _ _ _ _ _ _ _ _ Hskip Hrun)
      as [(Hl & Hm & _) | (w3 & Hm3 & _ & Hr & Hl & Hm & _)].
    + left. by split.
    + right. exists w3. by repeat split.
Qed.

(** C4, an instance: the outer call of the nested chain.  The nested call
    assigned succeeded while the patch ran; the outer call, whose patch then
    failed, assigns failed after that, once, and clears the session. *)
Lemma guarded_call_assigns_state_once_witness :
  let env := env_of "sklearn" false in
  let run := safe_patch_function env "sklearn" "Model" "fit" double
               (implement (nesting_patch env)) [VInt 5] [] (enter fresh_world) in
  state_writes (manager (world (snd nested_patched))) = [(0, succeeded)]
  /\ state_writes (manager (world (snd run))) = [(0, succeeded); (0, failed)]
  /\ sessions (manager (world (snd run))) = [mkSession "sklearn" 0 failed]
  /\ _session (manager (world (snd run))) = None.
Proof.
  intros env run.
  pose proof (guarded_call_assigns_state_once env "sklearn" "Model" "fit" double
                (implement (nesting_patch env)) [VInt 5] [] fresh_world
                (fst nested_patched) (snd nested_patched) eq_refl
                (surjective_pairing nested_patched)) as H.
  cbn zeta in H. destruct H as [_ [[Hl _] | (w3 & Hm3 & _ & _ & Hm)]].
  - vm_compute in Hl. discriminate.
  - split; [vm_compute; reflexivity|]. subst run. rewrite Hm.
    change (manager (snd (double [VInt 5] [] w3))) with (manager w3). rewrite Hm3.
    vm_compute. repeat split.
Defined.

(** X18.  Outside test mode, for every patch and every original function,
    a guarded call raises an [Exception] [e] in one of two ways only: the
    invocation of the original function made by the safety layer itself -
    the patch being skipped, or having ended without invoking it - raised
    [e]; or the patch ended with [e] after an invocation of the original
    function made by the patch had raised an [Exception], which need not be
    [e]: the patch may have handled that failure and failed on its own
    afterwards.  So a guarded call raises no [Exception] unless an
    invocation of the original function raised one. *)
Theorem production_call_raises_only_after_original_raised
    env integ dest fn original ps manage_run args kws w e :
  is_testing env = false ->
  let patched :=
    invoke_patch (managed env integ (implement ps) manage_run)
      (call_original env dest fn original (session_of w) args kws) args kws
      (entry env integ dest fn args kws w) in
  let run := safe_patch env integ dest fn original (implement ps) manage_run args kws (enter w) in
  fst run = Exc e ->
  isinstance_Exception e = true ->
  og_calls (locals (snd run)) = [(args, kws, Exc e)]
  \/ (short_circuit env integ w = false
      /\ fst patched = Exc e
      /\ og_calls (locals (snd run)) = og_calls (locals (snd patched))
      /\ exists a kw E,
           In (a, kw, Exc E) (og_calls (locals (snd patched)))
           /\ isinstance_Exception E = true).
Proof.
  intros Hprod patched run. subst patched run. unfold safe_patch.
  destruct (short_circuit env integ w) eqn:Hskip.
  - rewrite (unfold_skipped _ _ _ _ _ _ _ _ _ Hskip). cbn. intros -> _. by left.
  - destruct (invoke_patch (managed env integ (implement ps) manage_run)
                (call_original env dest fn original (session_of w) args kws) args kws
                (entry env integ dest fn args kws w)) as [rp c2] eqn:Hrun.
    assert (Hfail : remembers_failure (locals c2)).
    { pose proof (invoke_frame remembers_failure env integ ps manage_run
                    (call_original env dest fn original (session_of w) args kws) args kws
                    (entry env integ dest fn args kws w)) as H.
      rewrite Hrun in H. apply H.
      - intros a kw c. by apply call_original_remembers_failure.
      - unfold remembers_failure, entry. cbn. discriminate. }
    assert (Hres : remembers_result (locals c2)).
    { pose proof (invoke_frame remembers_result env integ ps manage_run
                    (call_original env dest fn original (session_of w) args kws) args kws
                    (entry env integ dest fn args kws w)) as H.
      rewrite Hrun in H. apply H.
      - intros a kw c. apply call_original_remembers.
      - by split. }
    destruct Hres as [_ Hcalled]. cbn [fst snd].
    destruct (guarded_outcome _ _ _ _ _ _ _ _ _ _ _ Hskip Hrun)
      as [(-> & _ & [(e' & -> & -> & Hwhy) | [(Ht & _) | (_ & -> & _)]])
         | (w3 & _ & Hf & -> & -> & _)].
    + intros [= <-] He. right. split; [reflexivity|]. split; [reflexivity|].
      split; [reflexivity|].
      destruct Hwhy as [Hno | [Hfd | Ht]]; [congruence | exact (Hfail Hfd) | congruence].
    + congruence.
    + discriminate.
    + intros Hr _. left. rewrite Hf in Hcalled.
      destruct (og_calls (locals c2)) eqn:Hmade; [|discriminate].
      cbn. by rewrite Hmade, Hr.
Qed.

(** X18, an instance: the patch handles the failure [boom] of the original
    function and fails with [bad]; the guarded call raises [bad]. *)
Lemma production_call_raises_only_after_original_raised_witness :
  fst scenario_replace = Exc bad
  /\ In ([VInt 5], [], Exc boom) (og_calls (locals (snd scenario_replace)))
  /\ (og_calls (locals (snd scenario_replace)) = [([VInt 5], [], Exc bad)]
      \/ exists a kw E,
           In (a, kw, Exc E) (og_calls (locals (snd scenario_replace)))
           /\ isinstance_Exception E = true).
Proof.
  split; [vm_compute; reflexivity|]. split; [vm_compute; by left|].
  destruct (production_call_raises_only_after_original_raised (env_of "sklearn" false)
              "sklearn" "Model" "fit" failing_original replacing_patch false [VInt 5] []
              fresh_world bad eq_refl eq_refl eq_refl) as [H | (_ & _ & Hsame & Hex)].
  - left. exact H.
  - right. destruct Hex as (a & kw & E & Hin & HE). exists a, kw, E.
    split; [|exact HE]. unfold scenario_replace. rewrite Hsame. exact Hin.
Defined.

(** X15.  A guarded call that runs its patch while no session is active
    leaves no active session behind, whatever the patch is and however the
    call ends. *)
Theorem guarded_call_leaves_no_session env integ dest fn original pf args kws w :
  short_circuit env integ w = false ->
  _session (manager w) = None ->
  _session (manager (world (snd (safe_patch_function env integ dest fn original pf args kws
                                   (enter w))))) = None.
Proof.
  intros Hskip Hnone. rewrite (unfold_instrumented _ _ _ _ _ _ _ _ _ Hskip). cbn zeta.
  destruct (invoke_patch _ _ _ _ _) as [[v|e] c2]; [|destruct (isinstance_Exception e)];
    unfold leaving, leave; cbn; by rewrite Hnone.
Qed.

Lemma guarded_call_leaves_no_session_witness :
  _session (manager (world (snd (safe_patch_function (env_of "sklearn" false) "sklearn"
                                   "Model" "fit" double (implement interrupted_patch)
                                   [VInt 5] [] (enter fresh_world))))) = None.
Proof.
  apply guarded_call_leaves_no_session; [vm_compute; reflexivity | reflexivity].
Defined.

(** X16.  In test mode nothing the patch raises is absorbed: the guarded
    call raises what the patch raised, and the original function is not
    invoked after the patch has ended. *)
Theorem test_mode_surfaces_patch_failures env integ dest fn original pf args kws w e c2 :
  is_testing env = true ->
  short_circuit env integ w = false ->
  invoke_patch pf (call_original env dest fn original (session_of w) args kws) args kws
    (entry env integ dest fn args kws w) = (Exc e, c2) ->
  let run := safe_patch_function env integ dest fn original pf args kws (enter w) in
  fst run = Exc e /\ locals (snd run) = locals c2.
Proof.
  intros Htest Hskip Hrun run. subst run.
  rewrite (unfold_instrumented _ _ _ _ _ _ _ _ _ Hskip). cbn zeta. rewrite Hrun.
  destruct (isinstance_Exception e); [|by split].
  destruct (on_patch_exception_tracking env integ dest fn (session_of w) args kws e c2)
    as (w' & Hh & _).
  rewrite Htest, orb_true_r in Hh. rewrite (bind_exc _ _ _ _ _ Hh). by split.
Qed.

Lemma test_mode_surfaces_patch_failures_witness :
  let run := safe_patch_function (env_of "sklearn" true) "sklearn" "Model" "fit" double
               (implement raising_patch) [VInt 5] [] (enter fresh_world) in
  fst run = Exc bad
  /\ locals (snd run)
     = locals (entry (env_of "sklearn" true) "sklearn" "Model" "fit" [VInt 5] [] fresh_world).
Proof.
  exact (test_mode_surfaces_patch_failures (env_of "sklearn" true) "sklearn" "Model" "fit"
           double (implement raising_patch) [VInt 5] [] fresh_world bad _
           eq_refl eq_refl eq_refl).
Defined.





(** X20.  In test mode, for every patch: a guarded call entered while no
    run is active, whose patch returns and leaves a run active, fails with
    an [AssertionError] (the integration leaked an active run). *)
Theorem leaked_run_fails_in_test_mode env integ dest fn original ps manage_run args kws w v c2 :
  is_testing env = true ->
  short_circuit env integ w = false ->
  active_run_in w = None ->
  invoke_patch (managed env integ (implement ps) manage_run)
    (call_original env dest fn original (session_of w) args kws) args kws
    (entry env integ dest fn args kws w) = (Val v, c2) ->
  active_run_in (world c2) <> None ->
  exists msg,
    fst (safe_patch env integ dest fn original (implement ps) manage_run args kws (enter w))
    = Exc (Exn AssertionError msg).
Proof.
  intros Htest Hskip Hidle Hrun Hleak. unfold safe_patch.
  assert (Hpre : preexisting_run_for_testing (locals c2) = Some None).
  { pose proof (invoke_frame (fun f => preexisting_run_for_testing f = Some None)
                  env integ ps manage_run
                  (call_original env dest fn original (session_of w) args kws) args kws
                  (entry env integ dest fn args kws w)) as H.
    rewrite Hrun in H. apply H.
    - intros a kw c. by rewrite call_original_preexisting.
    - unfold entry. cbn. by rewrite Htest, Hidle. }
  rewrite (unfold_instrumented _ _ _ _ _ _ _ _ _ Hskip). cbn zeta. rewrite Hrun.
  destruct (success_prefix dest fn (session_of w) args kws c2) as (w' & Htr & Hk).
  rewrite Hk. unfold leaving. cbn [fst].
  assert (Hcheck : exists msg, check_runs env integ (mkCtx (locals c2) w')
                               = (Exc (Exn AssertionError msg), mkCtx (locals c2) w')).
  { unfold check_runs, bind, get_locals, read, ret. cbn. rewrite Htest, Hpre. cbn.
    unfold in_world, zoom, mlflow_active_run, read. cbn.
    assert (Hact : active_run_in w' = active_run_in (world c2))
      by (unfold active_run_in; by rewrite Htr).
    rewrite Hact. destruct (active_run_in (world c2)); [by eexists | done]. }
  destruct Hcheck as [msg Hcheck]. exists msg. by rewrite (bind_exc _ _ _ _ _ Hcheck).
Qed.

Lemma leaked_run_fails_in_test_mode_witness :
  exists msg,
    fst (safe_patch (env_of "sklearn" true) "sklearn" "Model" "fit" double
           (implement leaking_patch) false [VInt 5] [] (enter fresh_world))
    = Exc (Exn AssertionError msg).
Proof.
  eapply (leaked_run_fails_in_test_mode (env_of "sklearn" true) "sklearn" "Model" "fit" double
            leaking_patch false [VInt 5] [] fresh_world).
  - reflexivity.
  - vm_compute. reflexivity.
  - reflexivity.
  - vm_compute. reflexivity.
  - vm_compute. discriminate.
Defined.

(** ** Exception-safe functions and classes *)

Lemma exception_safe_function_result env f w0 :
  is_testing env = false \/ fn_accepts_attributes f = true ->
  exists w1,
    exception_safe_function env f w0
    = (Val (mkFunction (fn_name f) (fn_doc f) (fn_signature f)
              (is_testing env || fn_exception_safe f) true
              (fun args kws =>
                 try_except (fn_call f args kws) isinstance_Exception
                   (fun e =>
                      if is_testing env then raise e
                      else
                        emit (LogWarning ("Encountered unexpected error during autologging: "
                                          ++ exn_msg e)) ;;
                        ret VNone))),
       w1)
    /\ manager w1 = manager w0 /\ tracking w1 = tracking w0.
Proof.
  intros Hable.
  unfold exception_safe_function, set_exception_safe, update_wrapper_extended,
    inspect_signature.
  unfold try_except, bind, ret, raise, emit, modify.
  destruct (is_testing env); [destruct Hable as [Hno | ->]; [discriminate|]|];
    destruct (fn_signature f) as [sig|]; cbn; rewrite ?orb_false_r;
    eexists; repeat split.
Qed.

Lemma exception_safe_function_refused env f w0 :
  is_testing env = true ->
  fn_accepts_attributes f = false ->
  exists msg, exception_safe_function env f w0 = (Exc (Exn AttributeError msg), w0).
Proof.
  intros Htest Hno. unfold exception_safe_function, set_exception_safe, bind, raise.
  rewrite Htest, Hno. by eexists.
Qed.

Lemma safe_call_in_production env (call : M World pyval) w :
  is_testing env = false ->
  let run :=
    try_except call isinstance_Exception
      (fun e =>
         if is_testing env then raise e
         else
           emit (LogWarning ("Encountered unexpected error during autologging: "
                             ++ exn_msg e)) ;;
           ret VNone) w in
  (forall e, fst run = Exc e -> isinstance_Exception e = false)
  /\ (forall v, fst (call w) = Val v -> run = call w)
  /\ (forall e, fst (call w) = Exc e -> isinstance_Exception e = true -> fst run = Val VNone).
Proof.
  intros Hprod. unfold try_except, bind, ret, emit, modify. rewrite Hprod.
  destruct (call w) as [[v|e] w1]; cbn.
  - repeat split; discriminate.
  - destruct (isinstance_Exception e) eqn:He; cbn.
    + repeat split; discriminate.
    + repeat split; try discriminate; intros e' [= <-]; congruence.
Qed.

Lemma safe_call_in_test_mode env (call : M World pyval) w :
  is_testing env = true ->
  try_except call isinstance_Exception
    (fun e =>
       if is_testing env then raise e
       else
         emit (LogWarning ("Encountered unexpected error during autologging: "
                           ++ exn_msg e)) ;;
         ret VNone) w
  = call w.
Proof.
  intros Htest. unfold try_except, raise. rewrite Htest.
  destruct (call w) as [[v|e] w1]; [reflexivity|]. by destruct (isinstance_Exception e).
Qed.

(** X21.  Outside test mode [exception_safe_function] always yields a
    wrapper, also for a function whose signature cannot be inspected; the
    wrapper has the name, the docstring and the signature of the function;
    it never raises an [Exception]: where the function returns it does the
    same, with the same effects, and where the function raises an
    [Exception] it returns [None]. *)
Theorem exception_safe_function_in_production env f w0 :
  is_testing env = false ->
  exists safe w1,
    exception_safe_function env f w0 = (Val safe, w1)
    /\ fn_name safe = fn_name f /\ fn_doc safe = fn_doc f
    /\ fn_signature safe = fn_signature f
    /\ forall args kws w,
         (forall e, fst (fn_call safe args kws w) = Exc e -> isinstance_Exception e = false)
         /\ (forall v, fst (fn_call f args kws w) = Val v ->
               fn_call safe args kws w = fn_call f args kws w)
         /\ (forall e, fst (fn_call f args kws w) = Exc e -> isinstance_Exception e = true ->
               fst (fn_call safe args kws w) = Val VNone).
Proof.
  intros Hprod.
  destruct (exception_safe_function_result env f w0 (or_introl Hprod)) as (w1 & Hres & _).
  eexists. exists w1. split; [exact Hres|]. cbn [fn_name fn_doc fn_signature fn_call].
  repeat split; try reflexivity; by apply safe_call_in_production.
Qed.

Lemma exception_safe_function_in_production_witness :
  exists safe w1,
    exception_safe_function unconfigured failing_callback fresh_world = (Val safe, w1)
    /\ fn_name safe = "on_epoch_end"
    /\ fst (fn_call safe [] [] fresh_world) = Val VNone.
Proof.
  destruct (exception_safe_function_in_production unconfigured failing_callback fresh_world
              eq_refl) as (safe & w1 & Hres & Hname & _ & _ & Hcall).
  exists safe, w1. split; [exact Hres|]. split; [exact Hname|].
  destruct (Hcall [] [] fresh_world) as (_ & _ & Hnone). exact (Hnone bad eq_refl eq_refl).
Defined.

(** X22.  In test mode [exception_safe_function] marks the function before
    it wraps it.  For a function on which attributes can be set, the
    wrapper behaves as the function does, failures included, and carries
    the marker the argument validation looks for: passed on as a new
    argument it is accepted.  For a function on which attributes cannot be
    set (a builtin, a bound method) no wrapper is made: the call raises
    [AttributeError] and leaves the state as it was. *)
Theorem exception_safe_function_in_test_mode env f w0 :
  is_testing env = true ->
  (fn_accepts_attributes f = true ->
   exists safe w1,
     exception_safe_function env f w0 = (Val safe, w1)
     /\ (forall args kws w, fn_call safe args kws w = fn_call f args kws w)
     /\ forall addr, _validate_new_input (callable_value addr safe) = Val tt)
  /\ (fn_accepts_attributes f = false ->
      exists msg, exception_safe_function env f w0 = (Exc (Exn AttributeError msg), w0)).
Proof.
  intros Htest. split.
  - intros Hyes.
    destruct (exception_safe_function_result env f w0 (or_intror Hyes)) as (w1 & Hres & _).
    eexists. exists w1. split; [exact Hres|]. cbn [fn_call]. split.
    + intros args kws w. by apply safe_call_in_test_mode.
    + intros addr. unfold callable_value. cbn. by rewrite Htest.
  - intros Hno. by apply exception_safe_function_refused.
Qed.

Lemma exception_safe_function_in_test_mode_witness :
  (exists safe w1,
     exception_safe_function (env_of "keras" true) failing_callback fresh_world = (Val safe, w1)
     /\ fn_call safe [] [] fresh_world = (Exc bad, fresh_world)
     /\ _validate_new_input (callable_value 7 safe) = Val tt)
  /\ (exists msg,
        exception_safe_function (env_of "keras" true) builtin_print fresh_world
        = (Exc (Exn AttributeError msg), fresh_world)).
Proof.
  split.
  - destruct (exception_safe_function_in_test_mode (env_of "keras" true) failing_callback
                fresh_world eq_refl) as [Hyes _].
    destruct (Hyes eq_refl) as (safe & w1 & Hres & Hcall & Hok).
    exists safe, w1. split; [exact Hres|]. split; [|exact (Hok 7)].
    rewrite Hcall. reflexivity.
  - destruct (exception_safe_function_in_test_mode (env_of "keras" true) builtin_print
                fresh_world eq_refl) as [_ Hno].
    exact (Hno eq_refl).
Defined.

(** X23.  Where [exception_safe_function] yields a wrapper - outside test
    mode always, in test mode for a function on which attributes can be
    set - wrapping the wrapper again succeeds and changes nothing in what a
    call does: the second wrapper behaves as the first. *)
Theorem exception_safe_function_twice env f w0 :
  is_testing env = false \/ fn_accepts_attributes f = true ->
  exists safe w1 safe2 w2,
    exception_safe_function env f w0 = (Val safe, w1)
    /\ exception_safe_function env safe w1 = (Val safe2, w2)
    /\ forall args kws w, fn_call safe2 args kws w = fn_call safe args kws w.
Proof.
  intros Hable.
  destruct (exception_safe_function_result env f w0 Hable) as (w1 & Hres & _).
  eexists. exists w1.
  match type of Hres with _ = (Val ?s, _) =>
    destruct (exception_safe_function_result env s w1 (or_intror eq_refl))
      as (w2 & Hres2 & _) end.
  eexists. exists w2. split; [exact Hres|]. split; [exact Hres2|].
  intros args kws w. cbn [fn_call].
  destruct (is_testing env) eqn:Htest.
  - unfold try_except, raise.
    destruct (fn_call f args kws w) as [[v|e] w']; [reflexivity|].
    by destruct (isinstance_Exception e) eqn:He; rewrite ?He.
  - unfold try_except, bind, emit, modify, ret.
    destruct (fn_call f args kws w) as [[v|e] w']; [reflexivity|].
    by destruct (isinstance_Exception e) eqn:He; rewrite ?He.
Qed.

Lemma exception_safe_function_twice_witness :
  exists safe w1 safe2 w2,
    exception_safe_function (env_of "keras" true) failing_callback fresh_world = (Val safe, w1)
    /\ exception_safe_function (env_of "keras" true) safe w1 = (Val safe2, w2)
    /\ fn_call safe2 [] [] fresh_world = fn_call safe [] [] fresh_world.
Proof.
  destruct (exception_safe_function_twice (env_of "keras" true) failing_callback fresh_world
              (or_intror eq_refl)) as (safe & w1 & safe2 & w2 & H1 & H2 & Hsame).
  exists safe, w1, safe2, w2. split; [exact H1|]. split; [exact H2|].
  exact (Hsame [] [] fresh_world).
Defined.

Lemma wrap_callables_members env dct w0 :
  is_testing env = false \/ Forall takes_attributes dct ->
  exists dct' w1,
    wrap_callables env dct w0 = (Val dct', w1) /\ Forall2 (wrapped_member env) dct dct'.
Proof.
  intros Hable.
  assert (Hrest : forall x rest,
            is_testing env = false \/ Forall takes_attributes (x :: rest) ->
            is_testing env = false \/ Forall takes_attributes rest).
  { intros x rest [Hp | Hall]; [by left | right]. by apply Forall_cons in Hall as [_ Hall]. }
  revert w0. induction dct as [|[m [f|v]] rest IH]; intros w0; cbn [wrap_callables].
  - exists [], w0. split; [reflexivity | constructor].
  - assert (Hf : is_testing env = false \/ fn_accepts_attributes f = true).
    { destruct Hable as [Hp | Hall]; [by left | right].
      by apply Forall_cons in Hall as [Hf _]. }
    destruct (exception_safe_function_result env f w0 Hf) as (w1 & Hres & _).
    destruct (IH (Hrest _ _ Hable) w1) as (rest' & w2 & Hwrap & Hall).
    eexists (_ :: rest'), w2. split.
    + rewrite (bind_val _ _ _ _ _ Hres), (bind_val _ _ _ _ _ Hwrap). reflexivity.
    + constructor; [|exact Hall]. split; [reflexivity|]. cbn. exists w0. by rewrite Hres.
  - destruct (IH (Hrest _ _ Hable) w0) as (rest' & w2 & Hwrap & Hall).
    exists ((m, NotCallable v) :: rest'), w2. split.
    + rewrite (bind_val _ _ _ _ _ Hwrap). reflexivity.
    + constructor; [|exact Hall]. by split.
Qed.

Lemma wrap_callables_refused env dct w0 :
  is_testing env = true ->
  ~ Forall takes_attributes dct ->
  exists msg w1, wrap_callables env dct w0 = (Exc (Exn AttributeError msg), w1).
Proof.
  intros Htest. revert w0.
  induction dct as [|[m [f|v]] rest IH]; intros w0 Hnot; cbn [wrap_callables].
  - destruct Hnot. constructor.
  - destruct (fn_accepts_attributes f) eqn:Hf.
    + destruct (exception_safe_function_result env f w0 (or_intror Hf)) as (w1 & Hres & _).
      destruct (IH w1) as (msg & w2 & Hwrap).
      { intros Hall. apply Hnot. constructor; [exact Hf | exact Hall]. }
      exists msg, w2. by rewrite (bind_val _ _ _ _ _ Hres), (bind_exc _ _ _ _ _ Hwrap).
    + destruct (exception_safe_function_refused env f w0 Htest Hf) as (msg & Hres).
      exists msg, w0. by rewrite (bind_exc _ _ _ _ _ Hres).
  - destruct (IH w0) as (msg & w2 & Hwrap).
    { intros Hall. apply Hnot. constructor; [exact I | exact Hall]. }
    exists msg, w2. by rewrite (bind_exc _ _ _ _ _ Hwrap).
Qed.

(** X24.  What [callable] says of a member of the class body being part of
    the member: outside test mode, and in test mode when attributes can be
    set on every callable member, the metaclass yields a class with the
    name and the metaclass asked for and the members of the class body,
    under the same names and in the same order, those for which [callable]
    holds wrapped by [exception_safe_function] and the others as they were.
    In test mode, when attributes cannot be set on some callable member,
    no class is made: the metaclass raises [AttributeError]. *)
Theorem exception_safe_class_members env cls name dct w0 :
  (is_testing env = false \/ Forall takes_attributes dct ->
   exists c w1,
     _ExceptionSafeClass_new env cls name dct w0 = (Val c, w1)
     /\ class_name c = name
     /\ class_metaclass c = cls
     /\ Forall2 (wrapped_member env) dct (class_dict c))
  /\ (is_testing env = true -> ~ Forall takes_attributes dct ->
      exists msg w1,
        _ExceptionSafeClass_new env cls name dct w0 = (Exc (Exn AttributeError msg), w1)).
Proof.
  split.
  - intros Hable.
    destruct (wrap_callables_members env dct w0 Hable) as (dct' & w1 & Hwrap & Hall).
    exists (mkClass name cls dct'), w1. unfold _ExceptionSafeClass_new.
    rewrite (bind_val _ _ _ _ _ Hwrap). by repeat split.
  - intros Htest Hnot.
    destruct (wrap_callables_refused env dct w0 Htest Hnot) as (msg & w1 & Hwrap).
    exists msg, w1. unfold _ExceptionSafeClass_new. by rewrite (bind_exc _ _ _ _ _ Hwrap).
Qed.



(** ** The managed run and the check of test mode *)



(** ** More on the registry of patches *)

Lemma gorilla_revert_patches patch p :
  _AUTOLOGGING_PATCHES (gorilla_revert patch p) = _AUTOLOGGING_PATCHES p.
Proof. unfold gorilla_revert. by destruct (stored_originals p !! _). Qed.

Lemma gorilla_revert_all_patches l p :
  _AUTOLOGGING_PATCHES (foldl (fun q patch => gorilla_revert patch q) p l)
  = _AUTOLOGGING_PATCHES p.
Proof.
  revert p. induction l as [|patch l IH]; intros p; cbn; [reflexivity|].
  by rewrite IH, gorilla_revert_patches.
Qed.

(** X27.  [_store_patch] records the patch under the name of its
    integration, next to the patches recorded under that name before; the
    records of the other integrations, the attributes and the originals
    kept aside are left as they were. *)
Theorem store_patch_records integ patch p :
  (exists patches,
     _AUTOLOGGING_PATCHES (_store_patch integ patch p) !! integ = Some patches
     /\ forall q, q ∈ patches
                  <-> q = patch
                      \/ exists old, _AUTOLOGGING_PATCHES p !! integ = Some old /\ q ∈ old)
  /\ (forall other, other <> integ ->
        _AUTOLOGGING_PATCHES (_store_patch integ patch p) !! other
        = _AUTOLOGGING_PATCHES p !! other)
  /\ attributes (_store_patch integ patch p) = attributes p
  /\ stored_originals (_store_patch integ patch p) = stored_originals p.
Proof.
  unfold _store_patch. cbn. split; [|split; [|by split]].
  - destruct (_AUTOLOGGING_PATCHES p !! integ) as [old|] eqn:Hold.
    + exists (old ∪ {[patch]}). rewrite lookup_insert_eq. split; [reflexivity|].
      intros q. rewrite elem_of_union, elem_of_singleton. split.
      * intros [Hq | ->]; [right; by exists old | by left].
      * intros [-> | (old' & [= <-] & Hq)]; [by right | by left].
    + exists {[patch]}. rewrite lookup_insert_eq. split; [reflexivity|].
      intros q. rewrite elem_of_singleton. split; [by left|].
      intros [-> | (old' & Hno & _)]; [reflexivity | discriminate].
  - intros other Hne.
    destruct (_AUTOLOGGING_PATCHES p !! integ); by rewrite lookup_insert_ne.
Qed.

(** X28.  [revert_patches] forgets the patches of the integration it is
    called for and of no other: the records of every other integration are
    as they were. *)
Theorem revert_patches_keeps_other_records name other p :
  other <> name ->
  _AUTOLOGGING_PATCHES (revert_patches name p) !! other = _AUTOLOGGING_PATCHES p !! other.
Proof.
  intros Hne. unfold revert_patches. cbn.
  rewrite lookup_delete_ne by done. by rewrite gorilla_revert_all_patches.
Qed.

Lemma revert_patches_keeps_other_records_witness :
  _AUTOLOGGING_PATCHES (revert_patches "keras" one_integration) !! "sklearn"
  = _AUTOLOGGING_PATCHES one_integration !! "sklearn".
Proof. apply revert_patches_keeps_other_records. discriminate. Defined.

(** X29.  Reverting the patches of an integration a second time changes
    nothing. *)
Theorem revert_patches_idempotent name p :
  revert_patches name (revert_patches name p) = revert_patches name p.
Proof. apply revert_patches_unrecorded, revert_patches_forgets. Qed.

(** X30.  Installing a patch and reverting the patches of its integration
    is a round trip: for a process in which the integration has recorded
    nothing, the attribute exists and no original of it is kept aside,
    [revert_patches] after the installation gives the process back -
    the attribute is the original function again, nothing is kept aside,
    nothing is recorded. *)
Theorem install_then_revert_restores integ dest fn g p original :
  _AUTOLOGGING_PATCHES p !! integ = None ->
  stored_originals p !! (dest, fn) = None ->
  attributes p !! (dest, fn) = Some original ->
  gorilla_get_original_attribute dest fn (install integ dest fn g p) = Some original
  /\ revert_patches integ (install integ dest fn g p) = p.
Proof.
  intros Hnew Hkept Hattr. unfold install, _wrap_patch, _store_patch, gorilla_apply.
  cbn. rewrite Hnew, Hkept, Hattr. split.
  - unfold gorilla_get_original_attribute. cbn. by rewrite lookup_insert_eq.
  - unfold revert_patches. cbn. rewrite lookup_insert_eq, elements_singleton. cbn.
    unfold gorilla_revert. cbn. rewrite lookup_insert_eq. cbn.
    rewrite insert_insert_eq, (insert_id _ _ _ Hattr), (delete_insert_id _ _ _ Hkept),
      (delete_insert_id _ _ _ Hnew).
    by destruct p.
Qed.

Lemma install_then_revert_restores_witness :
  gorilla_get_original_attribute "sklearn.Model" "fit" one_integration = Some 100
  /\ revert_patches "sklearn" one_integration
     = mkProcess {[ ("sklearn.Model", "fit") := 100 ]} ∅ ∅.
Proof.
  exact (install_then_revert_restores "sklearn" "sklearn.Model" "fit" 101
           (mkProcess {[ ("sklearn.Model", "fit") := 100 ]} ∅ ∅) 100
           eq_refl eq_refl eq_refl).
Defined.
